(** * rasa_core HTTP server: request handlers over the conversation tracker store

    A shallow embedding of [rasa_core/server.py].  The handler bodies
    ([convert_obj_2_tracker_events], [continue_predicting], [append_events],
    [retrieve_tracker], [update_tracker], [parse]) are translated from the
    source.  The collaborators they call ([Event.from_parameters], the
    tracker and the tracker store) live in other modules of the package and
    are modelled from the specification; the agent's message handling is a
    section parameter. *)

From stdpp Require Import base option list strings gmap.

Open Scope string_scope.
Open Scope list_scope.
Set Warnings "-register-all".

(** ** Python values

    What [json.loads] produces: [None], booleans, numbers, text, lists and
    dicts keyed by text.  Numbers are kept to the integers. *)

Inductive json : Type :=
  | JNull
  | JBool (b : bool)
  | JNum (n : Z)
  | JStr (s : string)
  | JArr (l : list json)
  | JObj (m : gmap string json).

(** Exceptions that the modelled code can raise. *)
Inductive exn : Type :=
  | UnicodeDecodeError
  | ValueError
  | TypeError
  | AttributeError
  | IndexError
  | UnknownEventKind
  | InvalidEventParams
  | KeyError
  | PersistenceError
  | AgentError (msg : string).

(** The result of running a piece of Python: a value or a raised exception. *)
Inductive Outcome (A : Type) : Type :=
  | Return (a : A)
  | Raise (x : exn).
Arguments Return {A} a.
Arguments Raise {A} x.

Definition is_return {A} (o : Outcome A) : bool :=
  match o with Return _ => true | Raise _ => false end.

(** ** Event model *)

Module Events.

(** Modelled from the spec: the [Domain] descriptor of [rasa_core.domain],
    read-only, answering [slot_exists] and [action_exists]. *)
Record Domain : Type := {
  slot_names : list string;
  action_names : list string
}.

(** Modelled from the spec: [slot_exists(name)] and [action_exists(name)]
    of the domain interface. *)
Definition slot_exists (d : Domain) (name : string) : bool :=
  bool_decide (name ∈ slot_names d).

Definition action_exists (d : Domain) (name : string) : bool :=
  bool_decide (name ∈ action_names d).

(** Modelled from the spec: the [Event] variants of [rasa_core.events]
    (section 3 of the specification). *)
Inductive Event : Type :=
  | SlotSet (name : string) (value : json)
  | ActionExecuted (action_name : string)
  | UserUttered (text : string) (parsed_data : json)
  | Restarted.

(** Modelled from the spec: the statically known kinds and their wire tags.
    The specification fixes ["set_slot"] and ["action_executed"] by example;
    the two remaining variants are tagged in the same style. *)
Inductive EventKind : Type := KSlotSet | KActionExecuted | KUserUttered | KRestarted.

Definition kind_tag (k : EventKind) : string :=
  match k with
  | KSlotSet => "set_slot"
  | KActionExecuted => "action_executed"
  | KUserUttered => "user_uttered"
  | KRestarted => "restarted"
  end.

(** Modelled from the spec: the closed set of kinds and the lookup of a
    kind by its tag; a tag that is not text names no kind. *)
Definition known_kinds : list EventKind :=
  [KSlotSet; KActionExecuted; KUserUttered; KRestarted].

Definition resolve_by_type (etype : json) : option EventKind :=
  match etype with
  | JStr tag => find (fun k => bool_decide (kind_tag k = tag)) known_kinds
  | _ => None
  end.

(** An event kind is statically known when its tag resolves. *)
Definition known_kind (etype : json) : bool :=
  match resolve_by_type etype with Some _ => true | None => false end.

(** Modelled from the spec: [Event.from_parameters(etype, parameters, domain)]
    of [rasa_core.events], the specification's [construct]: it fails with
    [UnknownEventKind] if the kind is not recognised and with
    [InvalidEventParams] if a parameter of the variant is missing or fails
    domain validation. *)
Definition from_parameters (etype : json) (parameters : gmap string json)
    (domain : Domain) : Outcome Event :=
  match resolve_by_type etype with
  | None => Raise UnknownEventKind
  | Some KSlotSet =>
      match parameters !! "name", parameters !! "value" with
      | Some (JStr name), Some value =>
          if slot_exists domain name then Return (SlotSet name value)
          else Raise InvalidEventParams
      | _, _ => Raise InvalidEventParams
      end
  | Some KActionExecuted =>
      match parameters !! "action_name" with
      | Some (JStr a) =>
          if action_exists domain a then Return (ActionExecuted a)
          else Raise InvalidEventParams
      | _ => Raise InvalidEventParams
      end
  | Some KUserUttered =>
      match parameters !! "text", parameters !! "parsed_data" with
      | Some (JStr text), Some parsed => Return (UserUttered text parsed)
      | _, _ => Raise InvalidEventParams
      end
  | Some KRestarted => Return Restarted
  end.

(** Modelled from the spec: the serialized form of an event in a snapshot,
    the shape in which events arrive. *)
Definition as_dict (e : Event) : json :=
  match e with
  | SlotSet name value =>
      JObj (<["event" := JStr (kind_tag KSlotSet)]>
            (<["name" := JStr name]> (<["value" := value]> ∅)))
  | ActionExecuted a =>
      JObj (<["event" := JStr (kind_tag KActionExecuted)]>
            (<["action_name" := JStr a]> ∅))
  | UserUttered text parsed =>
      JObj (<["event" := JStr (kind_tag KUserUttered)]>
            (<["text" := JStr text]> (<["parsed_data" := parsed]> ∅)))
  | Restarted => JObj (<["event" := JStr (kind_tag KRestarted)]> ∅)
  end.

End Events.
Export Events.

(** ** Trackers *)

Module Tracker.

(** Modelled from the spec: the projection kept by a tracker of
    [rasa_core.trackers] (slot values, latest executed action, latest user
    input, turn count). *)
Record State : Type := {
  slots : gmap string json;
  latest_action : option string;
  latest_message : option (string * json);
  turn_count : nat
}.

(** Modelled from the spec: the empty initial state. *)
Definition empty_state : State :=
  {| slots := ∅; latest_action := None; latest_message := None; turn_count := 0 |}.

(** Modelled from the spec: the per-kind [apply] rule of the event model. *)
Definition apply (e : Event) (s : State) : State :=
  match e with
  | SlotSet name value =>
      {| slots := <[name := value]> (slots s);
         latest_action := latest_action s;
         latest_message := latest_message s;
         turn_count := turn_count s |}
  | ActionExecuted a =>
      {| slots := slots s;
         latest_action := Some a;
         latest_message := latest_message s;
         turn_count := S (turn_count s) |}
  | UserUttered text parsed =>
      {| slots := slots s;
         latest_action := latest_action s;
         latest_message := Some (text, parsed);
         turn_count := turn_count s |}
  | Restarted => empty_state
  end.

(** Modelled from the spec: the tracker object of [rasa_core.trackers], an
    event log with the projection derived from it. *)
Record DialogueStateTracker : Type := {
  sender_id : string;
  events : list Event;
  state : State
}.

(** Modelled from the spec: [new(conversation_id)]. *)
Definition new (cid : string) : DialogueStateTracker :=
  {| sender_id := cid; events := []; state := empty_state |}.

(** Modelled from the spec: [update(event)] appends to the log and applies
    the one new event to the projection. *)
Definition update (t : DialogueStateTracker) (e : Event) : DialogueStateTracker :=
  {| sender_id := sender_id t;
     events := events t ++ [e];
     state := apply e (state t) |}.

(** Modelled from the spec: the replay of a persisted log from the empty
    state, used when the store loads a tracker. *)
Definition rehydrate (cid : string) (evs : list Event) : DialogueStateTracker :=
  foldl update (new cid) evs.

(** Modelled from the spec: the default of [current_state]'s
    [should_include_events] argument; the event list is part of a snapshot
    only when requested. *)
Definition default_should_include_events : bool := false.

(** Modelled from the spec: [current_state(should_include_events)], the
    snapshot mapping. *)
Definition current_state (t : DialogueStateTracker)
    (should_include_events : bool) : json :=
  let base : gmap string json :=
    <["sender_id" := JStr (sender_id t)]>
    (<["slots" := JObj (slots (state t))]>
    (<["latest_action" := from_option JStr JNull (latest_action (state t))]>
    (<["turn_count" := JNum (Z.of_nat (turn_count (state t)))]> ∅))) in
  JObj (if should_include_events
        then <["events" := JArr (as_dict <$> events t)]> base
        else base).

End Tracker.
Export Tracker.

(** ** Tracker store *)

Module Store.

(** Modelled from the spec: the tracker store of [rasa_core.tracker_store].
    [resident] holds the one in-memory tracker instance per id, [persisted]
    the durable event logs, [backend_up] whether the persistence backend
    answers (when it does not, persistence I/O raises [PersistenceError]). *)
Record TrackerStore : Type := {
  resident : gmap string DialogueStateTracker;
  persisted : gmap string (list Event);
  backend_up : bool
}.

(** Modelled from the spec: the two mappings of the store, written at one
    id. *)
Definition set_resident (cid : string) (t : DialogueStateTracker)
    (s : TrackerStore) : TrackerStore :=
  {| resident := <[cid := t]> (resident s);
     persisted := persisted s;
     backend_up := backend_up s |}.

Definition set_persisted (cid : string) (evs : list Event)
    (s : TrackerStore) : TrackerStore :=
  {| resident := resident s;
     persisted := <[cid := evs]> (persisted s);
     backend_up := backend_up s |}.

(** Modelled from the spec: [save(tracker)] overwrites the persisted log of
    the tracker's id, or fails with [PersistenceError] leaving the in-memory
    tracker as it is. *)
Definition save (t : DialogueStateTracker) (s : TrackerStore)
    : Outcome unit * TrackerStore :=
  if backend_up s then (Return (), set_persisted (sender_id t) (events t) s)
  else (Raise PersistenceError, s).

(** Modelled from the spec: [get_or_create(conversation_id)] returns the
    resident tracker, else loads the persisted one, else creates a new
    empty tracker and persists it.  Durable state changes through [save]
    only, so the new tracker is persisted by a [save] of the store's own. *)
Definition get_or_create_tracker (cid : string) (s : TrackerStore)
    : Outcome DialogueStateTracker * TrackerStore :=
  match resident s !! cid with
  | Some t => (Return t, s)
  | None =>
      if backend_up s then
        match persisted s !! cid with
        | Some evs =>
            let t := rehydrate cid evs in (Return t, set_resident cid t s)
        | None =>
            let t := new cid in
            let '(saved, s') := save t (set_resident cid t s) in
            (match saved with
             | Return _ => Return t
             | Raise x => Raise x
             end, s')
        end
      else (Raise PersistenceError, s)
  end.

(** Modelled from the spec: [create_fresh(conversation_id)] makes a new
    empty tracker the instance of the id; persisted data stays as it is
    until [save]. *)
Definition create_tracker (cid : string) (s : TrackerStore)
    : Outcome DialogueStateTracker * TrackerStore :=
  let t := new cid in (Return t, set_resident cid t s).

(** Modelled from the spec: [tracker.update(e)] on a tracker handed out by
    the store.  The object is the store's one resident instance of the id,
    so the store sees the mutation. *)
Definition update_resident (t : DialogueStateTracker) (e : Event)
    (s : TrackerStore) : DialogueStateTracker * TrackerStore :=
  let t' := update t e in (t', set_resident (sender_id t) t' s).

End Store.
Export Store.

(** ** Requests, responses and the handler monad *)

Module Http.

(** A byte string, as far as the handlers look at it: they only ever decode
    it as strict UTF-8, so it is either the encoding of a text or something
    that fails to decode. *)
Inductive bytes : Type :=
  | Utf8 (s : string)
  | NotUtf8.

(** [b.decode('utf-8', 'strict')] *)
Definition decode (b : bytes) : Outcome string :=
  match b with
  | Utf8 s => Return s
  | NotUtf8 => Raise UnicodeDecodeError
  end.

(** The body of a request, as [json.loads(request.content.read().decode(..))]
    sees it: bytes that do not decode, text that is not JSON, or a JSON
    document. *)
Inductive Content : Type :=
  | Undecodable
  | Malformed
  | Document (j : json).

Record Request : Type := {
  method : bytes;
  args : list (bytes * list bytes);
  content : Content
}.

(** What a handler hands back to the framework: a text, or the text that
    [json.dumps] makes of a value. *)
Inductive Body : Type :=
  | Text (s : string)
  | Dumped (j : json).

Definition json_dumps (j : json) : Body := Dumped j.

(** The response side of the request object. *)
Record Response : Type := {
  headers : gmap string string;
  code : Z
}.

Definition fresh_response : Response := {| headers := ∅; code := 200 |}.

(** The calls a handler makes on its collaborators, in the order made. *)
Inductive Call : Type :=
  | C_setHeader (name value : string)
  | C_setResponseCode (c : Z)
  | C_json_loads
  | C_from_parameters (etype : json) (parameters : gmap string json)
  | C_get_or_create_tracker (cid : string)
  | C_create_tracker (cid : string)
  | C_update (cid : string) (e : Event)
  | C_save (cid : string)
  | C_current_state (cid : string) (should_include_events : bool)
  | C_start_message_handling (message : json) (cid : string)
  | C_continue_message_handling (cid : string) (executed_action : json)
      (events : list Event)
  | C_logger_error (x : exn).

(** [self.agent]: the domain and the tracker store the handlers reach. *)
Record Agent : Type := {
  domain : Domain;
  tracker_store : TrackerStore
}.

Definition with_store (s : TrackerStore) (a : Agent) : Agent :=
  {| domain := domain a; tracker_store := s |}.

(** The world a handler runs in. *)
Record World : Type := {
  agent : Agent;
  response : Response;
  calls : list Call
}.

Definition M (A : Type) : Type := World → Outcome A * World.

#[export] Instance M_ret : MRet M := λ A a w, (Return a, w).
#[export] Instance M_bind : MBind M := λ A B f c w,
  match c w with
  | (Return a, w') => f a w'
  | (Raise x, w') => (Raise x, w')
  end.

#[export] Instance Outcome_ret : MRet Outcome := λ A a, Return a.
#[export] Instance Outcome_bind : MBind Outcome := λ A B f o,
  match o with
  | Return a => f a
  | Raise x => Raise x
  end.

Definition raise {A} (x : exn) : M A := λ w, (Raise x, w).

Definition lift {A} (o : Outcome A) : M A := λ w, (o, w).

Definition log (cs : list Call) : M unit := λ w,
  (Return (), {| agent := agent w; response := response w;
                 calls := calls w ++ cs |}).

Definition get_domain : M Domain := λ w, (Return (domain (agent w)), w).

(** Run an operation of the tracker store on the agent's store. *)
Definition on_store {A} (op : TrackerStore → Outcome A * TrackerStore) : M A :=
  λ w, let '(o, s) := op (tracker_store (agent w)) in
       (o, {| agent := with_store s (agent w); response := response w;
              calls := calls w |}).

(** Run a method of the agent. *)
Definition on_agent {A} (op : Agent → Outcome A * Agent) : M A :=
  λ w, let '(o, a) := op (agent w) in
       (o, {| agent := a; response := response w; calls := calls w |}).

(** [try: body except Exception as e: handler(e)] *)
Definition try_except {A} (body : M A) (handler : exn → M A) : M A := λ w,
  match body w with
  | (Return a, w') => (Return a, w')
  | (Raise x, w') => handler x w'
  end.

(** [request.setHeader(name, value)] *)
Definition setHeader (name value : string) : M unit := λ w,
  (Return (),
   {| agent := agent w;
      response := {| headers := <[name := value]> (headers (response w));
                     code := code (response w) |};
      calls := calls w ++ [C_setHeader name value] |}).

(** [request.setResponseCode(c)] *)
Definition setResponseCode (c : Z) : M unit := λ w,
  (Return (),
   {| agent := agent w;
      response := {| headers := headers (response w); code := c |};
      calls := calls w ++ [C_setResponseCode c] |}).

(** [json.loads(request.content.read().decode('utf-8', 'strict'))]: the
    argument is decoded first, so [json.loads] is only called on a body
    that decodes. *)
Definition load_content (request : Request) : M json :=
  match content request with
  | Undecodable => raise UnicodeDecodeError
  | Malformed => _ ← log [C_json_loads]; raise ValueError
  | Document j => _ ← log [C_json_loads]; mret j
  end.

(** The tracker store and tracker methods, as the handlers call them. *)
Definition get_or_create_tracker (cid : string) : M DialogueStateTracker :=
  _ ← log [C_get_or_create_tracker cid];
  on_store (Store.get_or_create_tracker cid).

Definition create_tracker (cid : string) : M DialogueStateTracker :=
  _ ← log [C_create_tracker cid];
  on_store (Store.create_tracker cid).

Definition save (tracker : DialogueStateTracker) : M unit :=
  _ ← log [C_save (sender_id tracker)];
  on_store (Store.save tracker).

Definition tracker_update (tracker : DialogueStateTracker) (e : Event)
    : M DialogueStateTracker :=
  _ ← log [C_update (sender_id tracker) e];
  on_store (λ s, let '(t, s') := update_resident tracker e s in (Return t, s')).

Definition tracker_current_state (tracker : DialogueStateTracker)
    (should_include_events : bool) : M json :=
  _ ← log [C_current_state (sender_id tracker) should_include_events];
  mret (current_state tracker should_include_events).

(** [for e in events: tracker.update(e)]; the tracker object is threaded
    through as a value. *)
Fixpoint update_all (tracker : DialogueStateTracker) (events : list Event)
    : M DialogueStateTracker :=
  match events with
  | [] => mret tracker
  | e :: rest => t ← tracker_update tracker e; update_all t rest
  end.

End Http.
Export Http.

(** ** [rasa_core/server.py]

    The handlers below are the functions that the routes name.  Each of
    them is wrapped in the [check_cors] decorator of [rasa_nlu.server],
    which is not part of this package and may answer a request without
    calling the function; what is modelled is what the function does when
    it is called. *)

Module Server.

(** [d.get(key, default)] on a dict. *)
Definition dict_get (d : gmap string json) (key : string) (dflt : json) : json :=
  default dflt (d !! key).

(** What a run of [convert_obj_2_tracker_events] leaves behind: the caller's
    batch after the in-place deletions, the [Event.from_parameters] calls
    made, and the returned list or the exception raised. *)
Record Conversion (I : Type) : Type := {
  batch_after : I;
  constructions : list Call;
  result : Outcome (list Event)
}.
Arguments batch_after {I} _.
Arguments constructions {I} _.
Arguments result {I} _.

(** The loop of [convert_obj_2_tracker_events] over the elements of a list.
    An element that is not a dict has no [get]. *)
Fixpoint convert_loop (domain : Domain) (serialized_events : list json)
    (deserialized : list Event) : Conversion (list json) :=
  match serialized_events with
  | [] =>
      {| batch_after := []; constructions := []; result := Return deserialized |}
  | JObj e :: rest =>
      let etype := dict_get e "event" JNull in
      match etype with
      | JNull =>
          let r := convert_loop domain rest deserialized in
          {| batch_after := JObj e :: batch_after r;
             constructions := constructions r;
             result := result r |}
      | _ =>
          let e' := delete "event" e in
          match from_parameters etype e' domain with
          | Return ev =>
              let r := convert_loop domain rest (deserialized ++ [ev]) in
              {| batch_after := JObj e' :: batch_after r;
                 constructions := C_from_parameters etype e' :: constructions r;
                 result := result r |}
          | Raise x =>
              {| batch_after := JObj e' :: rest;
                 constructions := [C_from_parameters etype e'];
                 result := Raise x |}
          end
      end
  | e :: rest =>
      {| batch_after := e :: rest; constructions := [];
         result := Raise AttributeError |}
  end.

(** [convert_obj_2_tracker_events(serialized_events, domain)].  Iterating a
    dict or a text yields texts, which have no [get]; [None], booleans and
    numbers are not iterable. *)
Definition convert_obj_2_tracker_events (serialized_events : json)
    (domain : Domain) : Conversion json :=
  match serialized_events with
  | JArr l =>
      let r := convert_loop domain l [] in
      {| batch_after := JArr (batch_after r);
         constructions := constructions r;
         result := result r |}
  | JObj m =>
      {| batch_after := serialized_events; constructions := [];
         result := if decide (size m = 0) then Return []
                   else Raise AttributeError |}
  | JStr s =>
      {| batch_after := serialized_events; constructions := [];
         result := if decide (s = "") then Return []
                   else Raise AttributeError |}
  | _ =>
      {| batch_after := serialized_events; constructions := [];
         result := Raise TypeError |}
  end.

(** The call of [convert_obj_2_tracker_events] inside a handler; the batch
    is local to the request. *)
Definition convert (serialized_events : json) : M (list Event) :=
  d ← get_domain;
  let r := convert_obj_2_tracker_events serialized_events d in
  _ ← log (constructions r);
  lift (result r).

(** [POST /conversations/<cid>/tracker/events] *)
Definition append_events (request : Request) (cid : string) : M Body :=
  _ ← setHeader "Content-Type" "application/json";
  request_params ← load_content request;
  events ← convert request_params;
  tracker ← get_or_create_tracker cid;
  tracker ← update_all tracker events;
  _ ← save tracker;
  st ← tracker_current_state tracker default_should_include_events;
  mret (json_dumps st).

(** [GET /conversations/<cid>/tracker] *)
Definition retrieve_tracker (request : Request) (cid : string) : M Body :=
  _ ← setHeader "Content-Type" "application/json";
  tracker ← get_or_create_tracker cid;
  st ← tracker_current_state tracker true;
  mret (json_dumps st).

(** [PUT /conversations/<cid>/tracker] *)
Definition update_tracker (request : Request) (cid : string) : M Body :=
  _ ← setHeader "Content-Type" "application/json";
  request_params ← load_content request;
  events ← convert request_params;
  tracker ← create_tracker cid;
  tracker ← update_all tracker events;
  _ ← save tracker;
  st ← tracker_current_state tracker true;
  mret (json_dumps st).

(** [value[0]] *)
Definition first_item (value : list bytes) : Outcome bytes :=
  match value with
  | [] => Raise IndexError
  | b :: _ => Return b
  end.

(** The dict comprehension over [request.args.items()] in [parse]; only
    which exception wins when a key and its value both fail depends on the
    order of the two decodings. *)
Fixpoint args_params (items : list (bytes * list bytes))
    (acc : gmap string json) : Outcome (gmap string json) :=
  match items with
  | [] => Return acc
  | (key, value) :: rest =>
      k ← decode key;
      v0 ← first_item value;
      v ← decode v0;
      args_params rest (<[k := JStr v]> acc)
  end.

Definition is_text (s : string) (j : json) : bool :=
  match j with
  | JStr s' => bool_decide (s = s')
  | _ => false
  end.

Fixpoint is_substring (needle hay : string) : bool :=
  String.prefix needle hay
  || match hay with
     | EmptyString => false
     | String _ hay' => is_substring needle hay'
     end.

(** [key in container] *)
Definition contains (key : string) (container : json) : Outcome bool :=
  match container with
  | JObj m => Return (bool_decide (is_Some (m !! key)))
  | JArr l => Return (existsb (is_text key) l)
  | JStr s => Return (is_substring key s)
  | _ => Raise TypeError
  end.

(** [container.pop(key)]: the value and the container afterwards. *)
Definition pop (key : string) (container : json) : Outcome (json * json) :=
  match container with
  | JObj m =>
      match m !! key with
      | Some v => Return (v, JObj (delete key m))
      | None => Raise KeyError
      end
  | JArr _ => Raise TypeError
  | _ => Raise AttributeError
  end.

Definition error_body (msg : string) : Body :=
  json_dumps (JObj {["error" := JStr msg]}).

Section AgentMethods.

(** The agent's message handling is outside this module; any behaviour on
    the agent is allowed. *)
Variable start_message_handling : json → string → Agent → Outcome json * Agent.
Variable continue_message_handling :
  string → json → list Event → Agent → Outcome json * Agent.
(** ["{}".format(e)] *)
Variable format_exn : exn → string.

(** [POST /conversations/<cid>/continue] *)
Definition continue_predicting (request : Request) (cid : string) : M Body :=
  _ ← setHeader "Content-Type" "application/json";
  request_params ← load_content request;
  match request_params with
  | JObj params =>
      let encoded_events := dict_get params "events" (JArr []) in
      let executed_action := dict_get params "executed_action" JNull in
      events ← convert encoded_events;
      _ ← log [C_continue_message_handling cid executed_action events];
      response ← on_agent (continue_message_handling cid executed_action events);
      mret (json_dumps response)
  | _ => raise AttributeError
  end.

(** The request parameters of [parse]. *)
Definition read_params (request : Request) : M json :=
  m ← lift (decode (method request));
  if decide (m = "GET")
  then lift (ps ← args_params (args request) ∅; mret (JObj ps))
  else load_content request.

(** The [if]/[elif] of [parse] that picks the message; [None] is the
    [else] branch. *)
Definition pick_message (request_params : json) : M (option json) :=
  has_query ← lift (contains "query" request_params);
  if (has_query : bool) then
    r ← lift (pop "query" request_params); mret (Some (fst r))
  else
    has_q ← lift (contains "q" request_params);
    if (has_q : bool) then
      r ← lift (pop "q" request_params); mret (Some (fst r))
    else mret None.

(** [GET, POST /conversations/<cid>/parse] *)
Definition parse (request : Request) (cid : string) : M Body :=
  _ ← setHeader "Content-Type" "application/json";
  request_params ← read_params request;
  picked ← pick_message request_params;
  match picked with
  | None =>
      _ ← setResponseCode 404;
      mret (error_body "Invalid parse parameter specified")
  | Some message =>
      try_except
        (_ ← log [C_start_message_handling message cid];
         response ← on_agent (start_message_handling message cid);
         _ ← setResponseCode 200;
         mret (json_dumps response))
        (λ e,
         _ ← setResponseCode 500;
         _ ← log [C_logger_error e];
         mret (error_body (format_exn e)))
  end.

End AgentMethods.

End Server.
Export Server.

(** ** The handlers that take no conversation id *)

Module Status.

Section Version.

(** [rasa_core.version.__version__] *)
Variable __version__ : string.

(** [GET /] *)
Definition hello (request : Request) : M Body :=
  mret (Text ("hello from Rasa Core: " +:+ __version__)).

(** [GET /version] *)
Definition version (request : Request) : M Body :=
  _ ← setHeader "Content-Type" "application/json";
  mret (json_dumps (JObj {["version" := JStr __version__]})).

End Version.

End Status.
Export Status.

(** * Properties *)

(** ** Vocabulary of the statements *)

(** The kind and the construction parameters a mapping of a batch stands
    for, if its ["event"] entry is there and is not [None]. *)
Definition kind_of_mapping (m : gmap string json)
    : option (json * gmap string json) :=
  match m !! "event" with
  | None | Some JNull => None
  | Some etype => Some (etype, delete "event" m)
  end.

(** The mappings of a batch that carry a kind, in the order of the batch. *)
Definition kinded (batch : list (gmap string json))
    : list (json * gmap string json) :=
  omap kind_of_mapping batch.

(** A mapping after its ["event"] entry was taken out, if it carried a kind. *)
Definition stripped (m : gmap string json) : gmap string json :=
  match kind_of_mapping m with
  | Some (_, m') => m'
  | None => m
  end.

Definition constructs (d : Domain) (km : json * gmap string json)
    (ev : Event) : Prop :=
  from_parameters km.1 km.2 d = Return ev.

Definition construction_call (km : json * gmap string json) : Call :=
  C_from_parameters km.1 km.2.

(** A mapping whose kind is not one of the statically known kinds. *)
Definition unknown_kind_mapping (m : gmap string json) : bool :=
  match kind_of_mapping m with
  | Some (etype, _) => negb (known_kind etype)
  | None => false
  end.

Definition is_construction (c : Call) : bool :=
  match c with C_from_parameters _ _ => true | _ => false end.

Definition is_update (c : Call) : bool :=
  match c with C_update _ _ => true | _ => false end.

Definition is_save (c : Call) : bool :=
  match c with C_save _ => true | _ => false end.

Definition is_message_handling (c : Call) : bool :=
  match c with
  | C_start_message_handling _ _ | C_continue_message_handling _ _ _ => true
  | _ => false
  end.

Definition store_of (w : World) : TrackerStore := tracker_store (agent w).

(** The store files every resident tracker under the tracker's own id. *)
Definition store_ok (s : TrackerStore) : Prop :=
  map_Forall (λ cid t, sender_id t = cid) (resident s).

(** A request whose body is the JSON list of the mappings of [batch]. *)
Definition carries (request : Request) (batch : list (gmap string json)) : Prop :=
  content request = Document (JArr (JObj <$> batch)).

(** ** Worlds along a run

    The worlds that the statements below name: what a handler has made of
    the world it started in when it reaches a given point. *)

(** The store after [tracker.update] was called for each event of a list. *)
Fixpoint store_after_updates (t : DialogueStateTracker) (evs : list Event)
    (s : TrackerStore) : TrackerStore :=
  match evs with
  | [] => s
  | e :: rest =>
      store_after_updates (update t e) rest
        (set_resident (sender_id t) (update t e) s)
  end.

Definition json_header (r : Response) : Response :=
  {| headers := <["Content-Type" := "application/json"]> (headers r);
     code := code r |}.

(** The world once the header is set, the body is loaded and the
    constructions [cs] are made. *)
Definition after_prelude (w : World) (cs : list Call) : World :=
  {| agent := agent w;
     response := json_header (response w);
     calls := calls w ++ [C_setHeader "Content-Type" "application/json";
                          C_json_loads] ++ cs |}.

(** What [append_events] and [update_tracker] do once the events are
    constructed; they differ in how the tracker is fetched and in the
    snapshot asked for. *)
Definition apply_and_save (fetch : M DialogueStateTracker)
    (should_include_events : bool) (events : list Event) : M Body :=
  tracker ← fetch;
  tracker ← update_all tracker events;
  _ ← save tracker;
  st ← tracker_current_state tracker should_include_events;
  mret (json_dumps st).

(** The world once the tracker was fetched with the call [fetch_call],
    leaving the store as [s1]. *)
Definition after_fetch (w : World) (cs : list Call) (fetch_call : Call)
    (s1 : TrackerStore) : World :=
  {| agent := with_store s1 (agent w);
     response := json_header (response w);
     calls := calls w ++ [C_setHeader "Content-Type" "application/json";
                          C_json_loads] ++ cs ++ [fetch_call] |}.

(** The world after a successful [apply_and_save]. *)
Definition after_save (w1 : World) (t0 : DialogueStateTracker)
    (evs : list Event) (incl : bool) : World :=
  {| agent :=
       with_store
         (set_persisted (sender_id t0) (events t0 ++ evs)
            (store_after_updates t0 evs (store_of w1)))
         (agent w1);
     response := response w1;
     calls := calls w1 ++ (C_update (sender_id t0) <$> evs)
              ++ [C_save (sender_id t0); C_current_state (sender_id t0) incl] |}.

(** A run of a handler on a loaded body [j]: the calls it makes are the
    prelude, then the constructions, then calls that are not constructions;
    if the conversion raises, the handler raises the same exception right
    there, with the agent (and so every tracker) as it was; if it returns,
    the next call is [fetch_call]. *)
Definition constructs_before_applying (handler : Request → string → M Body)
    (fetch_call : Call) (request : Request) (cid : string) (w : World)
    (j : json) : Prop :=
  let r := convert_obj_2_tracker_events j (domain (agent w)) in
  ∃ rest,
    calls (handler request cid w).2 =
      calls w
      ++ [C_setHeader "Content-Type" "application/json"; C_json_loads]
      ++ constructions r ++ rest ∧
    Forall (λ c, is_construction c = true) (constructions r) ∧
    Forall (λ c, is_construction c = false) rest ∧
    match result r with
    | Raise x =>
        (handler request cid w).1 = Raise x ∧ rest = [] ∧
        agent (handler request cid w).2 = agent w
    | Return _ => ∃ rest', rest = fetch_call :: rest'
    end.

(** The request parameters of [parse] are the dict [m]: a GET whose
    arguments decode to it, or another method whose body is that object. *)
Definition has_params (request : Request) (m : gmap string json) : Prop :=
  (decode (method request) = Return "GET" ∧
   args_params (args request) ∅ = Return m) ∨
  (∃ meth, decode (method request) = Return meth ∧ meth ≠ "GET" ∧
           content request = Document (JObj m)).

(** The world of [parse] once the request parameters are read. *)
Definition after_params (request : Request) (w : World) : World :=
  {| agent := agent w;
     response := json_header (response w);
     calls := calls w ++ [C_setHeader "Content-Type" "application/json"]
              ++ match decode (method request) with
                 | Return meth => if decide (meth = "GET") then []
                                  else [C_json_loads]
                 | Raise _ => []
                 end |}.

Definition with_code (c : Z) (r : Response) : Response :=
  {| headers := headers r; code := c |}.

(** The outcome of [parse] when [message] is handed to the agent. *)
Definition handled (smh : json → string → Agent → Outcome json * Agent)
    (fmt : exn → string) (message : json) (cid : string) (w1 : World)
    : Outcome Body * World :=
  let '(o, a) := smh message cid (agent w1) in
  match o with
  | Return answer =>
      (Return (json_dumps answer),
       {| agent := a; response := with_code 200 (response w1);
          calls := calls w1 ++ [C_start_message_handling message cid;
                                C_setResponseCode 200] |})
  | Raise e =>
      (Return (error_body (fmt e)),
       {| agent := a; response := with_code 500 (response w1);
          calls := calls w1 ++ [C_start_message_handling message cid;
                                C_setResponseCode 500; C_logger_error e] |})
  end.

(** The outcome of [parse] when there is no message. *)
Definition not_found (w1 : World) : Outcome Body * World :=
  (Return (error_body "Invalid parse parameter specified"),
   {| agent := agent w1; response := with_code 404 (response w1);
      calls := calls w1 ++ [C_setResponseCode 404] |}).

Definition same_elsewhere (cid : string) (s s' : TrackerStore) : Prop :=
  ∀ c, c ≠ cid →
    resident s' !! c = resident s !! c ∧ persisted s' !! c = persisted s !! c.

(** ** Concrete requests *)

Module Sample.

Definition domain : Domain :=
  {| slot_names := ["x"; "my_slot"]; action_names := ["utter_greet"] |}.

(** A store that has seen conversation ["c1"] before: one executed action
    is persisted, no tracker is resident. *)
Definition store : TrackerStore :=
  {| resident := ∅;
     persisted := {["c1" := [ActionExecuted "utter_greet"]]};
     backend_up := true |}.

Definition world : World :=
  {| agent := {| Http.domain := domain; tracker_store := store |};
     response := fresh_response;
     calls := [] |}.

(** [{"event": "action_executed", "action_name": "utter_greet"}] *)
Definition greet : gmap string json :=
  <["event" := JStr "action_executed"]> {["action_name" := JStr "utter_greet"]}.

(** [{"event": "set_slot", "name": "x", "value": 2}] *)
Definition set_x : gmap string json :=
  <["event" := JStr "set_slot"]>
    (<["name" := JStr "x"]> {["value" := JNum 2]}).

(** [{"name": "x"}] *)
Definition no_kind : gmap string json := {["name" := JStr "x"]}.

(** [{"event": "bogus"}] *)
Definition bogus : gmap string json := {["event" := JStr "bogus"]}.

(** [{"event": "set_slot"}] *)
Definition nameless : gmap string json := {["event" := JStr "set_slot"]}.

Definition post (j : json) : Request :=
  {| method := Utf8 "POST"; args := []; content := Document j |}.

Definition post_batch (batch : list (gmap string json)) : Request :=
  post (JArr (JObj <$> batch)).

(** [GET .../parse?query=hello&q=bye] *)
Definition get_query_and_q : Request :=
  {| method := Utf8 "GET";
     args := [(Utf8 "query", [Utf8 "hello"]); (Utf8 "q", [Utf8 "bye"])];
     content := Undecodable |}.

(** An agent that answers with the message it was given. *)
Definition echo (message : json) (cid : string) (a : Agent)
    : Outcome json * Agent :=
  (Return message, a).

Definition quiet (cid : string) (executed_action : json) (evs : list Event)
    (a : Agent) : Outcome json * Agent :=
  (Return JNull, a).

Definition fmt (e : exn) : string := "error".

End Sample.

(** ** More vocabulary *)

Definition is_dict (j : json) : bool :=
  match j with JObj _ => true | _ => false end.

(** An argument of a GET whose name decodes and whose first value is there
    and decodes. *)
Definition good_item (item : bytes * list bytes) : bool :=
  match item with
  | (Utf8 _, Utf8 _ :: _) => true
  | _ => false
  end.

(** The exception that loading a body raises, if it does. *)
Definition body_error (c : Content) : option exn :=
  match c with
  | Undecodable => Some UnicodeDecodeError
  | Malformed => Some ValueError
  | Document _ => None
  end.

(** The entry of the request parameters that [parse] takes as the message. *)
Definition picked_message (m : gmap string json) : option json :=
  match m !! "query" with
  | Some message => Some message
  | None => m !! "q"
  end.

(** What [parse] does with request parameters that are not a dict, once
    they are read: it raises on the membership test or on [pop], or finds
    no message. *)
Definition non_dict_outcome (j : json) (w1 : World) : Outcome Body * World :=
  match j with
  | JArr l =>
      if existsb (is_text "query") l || existsb (is_text "q") l
      then (Raise TypeError, w1) else not_found w1
  | JStr s =>
      if is_substring "query" s || is_substring "q" s
      then (Raise AttributeError, w1) else not_found w1
  | _ => (Raise TypeError, w1)
  end.

(** The world once only the header is set. *)
Definition after_header (w : World) : World :=
  {| agent := agent w;
     response := json_header (response w);
     calls := calls w ++ [C_setHeader "Content-Type" "application/json"] |}.

(** The world in which a handler gives up on a body that does not load: a
    body that does not decode never gets to [json.loads]. *)
Definition after_bad_body (c : Content) (w : World) : World :=
  match c with
  | Undecodable => after_header w
  | _ => after_prelude w []
  end.

(** A computation that leaves the response side of the request alone. *)
Definition keeps_response {A} (c : M A) : Prop :=
  ∀ w, response (c w).2 = response w.

(** A computation that leaves the response headers alone. *)
Definition keeps_headers {A} (c : M A) : Prop :=
  ∀ w, headers (response (c w).2) = headers (response w).

(** A computation that only adds to the calls made so far. *)
Definition adds_calls {A} (c : M A) : Prop :=
  ∀ w, ∃ rest, calls (c w).2 = calls w ++ rest.

(** A run of a handler body from the world [w] whose first call was the
    [setHeader] of the content type. *)
Definition header_first (w : World) (run : Outcome Body * World) : Prop :=
  ∃ rest,
    calls run.2
    = calls w ++ C_setHeader "Content-Type" "application/json" :: rest.

Module Cases.

(** A store in which the tracker of ["c1"] is resident and the backend is
    down. *)
Definition offline_store : TrackerStore :=
  {| resident := {["c1" := rehydrate "c1" [ActionExecuted "utter_greet"]]};
     persisted := {["c1" := [ActionExecuted "utter_greet"]]};
     backend_up := false |}.

Definition offline_world : World :=
  {| agent := {| Http.domain := Sample.domain; tracker_store := offline_store |};
     response := fresh_response;
     calls := [] |}.

(** [GET .../parse?query=first&query=second] *)
Definition get_query_twice : Request :=
  {| method := Utf8 "GET";
     args := [(Utf8 "query", [Utf8 "first"; Utf8 "second"])];
     content := Undecodable |}.

(** [GET .../parse] with an argument that has no value. *)
Definition get_empty_value : Request :=
  {| method := Utf8 "GET";
     args := [(Utf8 "query", [])];
     content := Undecodable |}.

Definition undecodable : Request :=
  {| method := Utf8 "POST"; args := []; content := Undecodable |}.

Definition malformed : Request :=
  {| method := Utf8 "POST"; args := []; content := Malformed |}.

(** A store with two conversations resident and persisted, and a third one
    that is persisted only. *)
Definition busy_store : TrackerStore :=
  {| resident :=
       <["c1" := rehydrate "c1" [ActionExecuted "utter_greet"]]>
         {["c2" := rehydrate "c2" [SlotSet "x" (JNum 1)]]};
     persisted :=
       <["c1" := [ActionExecuted "utter_greet"]]>
         (<["c2" := [SlotSet "x" (JNum 1)]]> {["c3" := [Restarted]]});
     backend_up := true |}.

Definition busy_world : World :=
  {| agent := {| Http.domain := Sample.domain; tracker_store := busy_store |};
     response := fresh_response;
     calls := [] |}.

(** An agent whose message handling raises. *)
Definition failing (message : json) (cid : string) (a : Agent)
    : Outcome json * Agent :=
  (Raise (AgentError "no policy"), a).

End Cases.

(** ** The conversion loop *)

Section Conversion.

Variable d : Domain.

Lemma kind_of_mapping_not_null m etype ps :
  kind_of_mapping m = Some (etype, ps) →
  m !! "event" = Some etype ∧ etype ≠ JNull ∧ ps = delete "event" m.
Proof.
  unfold kind_of_mapping. destruct (m !! "event") as [[]|]; intros H;
    inversion H; subst; repeat split; congruence.
Qed.

Lemma convert_loop_skip m rest acc :
  kind_of_mapping m = None →
  convert_loop d (JObj m :: rest) acc =
  let r := convert_loop d rest acc in
  {| batch_after := JObj m :: batch_after r;
     constructions := constructions r;
     result := result r |}.
Proof.
  unfold kind_of_mapping. simpl. unfold dict_get.
  destruct (m !! "event") as [[]|]; simpl; intros H; try discriminate H; reflexivity.
Qed.

Lemma convert_loop_construct m rest acc km :
  kind_of_mapping m = Some km →
  convert_loop d (JObj m :: rest) acc =
  match from_parameters km.1 km.2 d with
  | Return ev =>
      let r := convert_loop d rest (acc ++ [ev]) in
      {| batch_after := JObj km.2 :: batch_after r;
         constructions := construction_call km :: constructions r;
         result := result r |}
  | Raise x =>
      {| batch_after := JObj km.2 :: rest;
         constructions := [construction_call km];
         result := Raise x |}
  end.
Proof.
  unfold kind_of_mapping, construction_call. simpl. unfold dict_get.
  destruct (m !! "event") as [[]|]; simpl; intros H; inversion H; subst;
    reflexivity.
Qed.

Lemma kinded_cons m batch :
  kinded (m :: batch) =
  match kind_of_mapping m with
  | Some km => km :: kinded batch
  | None => kinded batch
  end.
Proof. reflexivity. Qed.

Lemma kinded_app b1 b2 : kinded (b1 ++ b2) = kinded b1 ++ kinded b2.
Proof.
  induction b1 as [|m b1 IH]; [done|].
  rewrite <- app_comm_cons, !kinded_cons, IH. by destruct (kind_of_mapping m).
Qed.

Lemma stripped_kinded m km : kind_of_mapping m = Some km → stripped m = km.2.
Proof. unfold stripped. intros ->. by destruct km. Qed.

Lemma stripped_unkinded m : kind_of_mapping m = None → stripped m = m.
Proof. unfold stripped. by intros ->. Qed.

(** A batch whose kinded mappings all construct is converted to the list of
    their events, in order; every kinded mapping loses its ["event"] entry. *)
Lemma convert_loop_returns batch : ∀ acc evs,
  Forall2 (constructs d) (kinded batch) evs →
  convert_loop d (JObj <$> batch) acc =
  {| batch_after := JObj <$> (stripped <$> batch);
     constructions := construction_call <$> kinded batch;
     result := Return (acc ++ evs) |}.
Proof.
  induction batch as [|m batch IH]; intros acc evs H.
  - inversion H; subst. simpl. by rewrite app_nil_r.
  - rewrite !fmap_cons. rewrite kinded_cons in H |- *.
    destruct (kind_of_mapping m) as [km|] eqn:Hk.
    + inversion H as [|? ev ? evs' Hc Hrest]; subst.
      rewrite (convert_loop_construct _ _ _ _ Hk).
      unfold constructs in Hc. rewrite Hc. cbv zeta.
      rewrite (IH _ _ Hrest), (stripped_kinded _ _ Hk). simpl.
      by rewrite <- app_assoc.
    + rewrite (convert_loop_skip _ _ _ Hk). cbv zeta.
      rewrite (IH _ _ H), (stripped_unkinded _ Hk). reflexivity.
Qed.

(** A batch in which construction fails first at mapping [m]: the mappings
    up to and including [m] have lost their ["event"] entry, the ones after
    it are as they were. *)
Lemma convert_loop_raises pre m post km x : ∀ acc evs,
  Forall2 (constructs d) (kinded pre) evs →
  kind_of_mapping m = Some km →
  from_parameters km.1 km.2 d = Raise x →
  convert_loop d (JObj <$> (pre ++ m :: post)) acc =
  {| batch_after := JObj <$> ((stripped <$> pre) ++ stripped m :: post);
     constructions := construction_call <$> (kinded pre ++ [km]);
     result := Raise x |}.
Proof.
  induction pre as [|p pre IH]; intros acc evs H Hk Hx.
  - simpl app. rewrite fmap_cons, (convert_loop_construct _ _ _ _ Hk), Hx.
    rewrite (stripped_kinded _ _ Hk). reflexivity.
  - rewrite <- app_comm_cons, !fmap_cons. rewrite kinded_cons in H |- *.
    destruct (kind_of_mapping p) as [kp|] eqn:Hp.
    + inversion H as [|? ev ? evs' Hc Hrest]; subst.
      rewrite (convert_loop_construct _ _ _ _ Hp).
      unfold constructs in Hc. rewrite Hc. cbv zeta.
      rewrite (IH _ _ Hrest Hk Hx), (stripped_kinded _ _ Hp). reflexivity.
    + rewrite (convert_loop_skip _ _ _ Hp). cbv zeta.
      rewrite (IH _ _ H Hk Hx), (stripped_unkinded _ Hp). reflexivity.
Qed.

(** Every batch of mappings is of one of the two sorts. *)
Lemma batch_cases (batch : list (gmap string json)) :
  (∃ evs, Forall2 (constructs d) (kinded batch) evs) ∨
  (∃ pre m post km x evs,
     batch = pre ++ m :: post ∧
     Forall2 (constructs d) (kinded pre) evs ∧
     kind_of_mapping m = Some km ∧
     from_parameters km.1 km.2 d = Raise x).
Proof.
  induction batch as [|m batch IH].
  - left. exists []. constructor.
  - destruct (kind_of_mapping m) as [km|] eqn:Hk.
    + destruct (from_parameters km.1 km.2 d) as [ev|x] eqn:Hc.
      * destruct IH as [[evs H]|(pre & m' & post & km' & x & evs & -> & H & Hk' & Hx)].
        -- left. exists (ev :: evs). rewrite kinded_cons, Hk. by constructor.
        -- right. exists (m :: pre), m', post, km', x, (ev :: evs).
           split; [done|]. rewrite kinded_cons, Hk.
           split; [by constructor|done].
      * right. exists [], m, batch, km, x, []. repeat split; done.
    + destruct IH as [[evs H]|(pre & m' & post & km' & x & evs & -> & H & Hk' & Hx)].
      * left. exists evs. by rewrite kinded_cons, Hk.
      * right. exists (m :: pre), m', post, km', x, evs.
        split; [done|]. by rewrite kinded_cons, Hk.
Qed.

End Conversion.

(** ** Trackers and the store under updates *)

Lemma sender_id_updates evs : ∀ t, sender_id (foldl update t evs) = sender_id t.
Proof. induction evs as [|e evs IH]; intros t; [done|]. simpl. by rewrite IH. Qed.

Lemma events_updates evs : ∀ t, events (foldl update t evs) = events t ++ evs.
Proof.
  induction evs as [|e evs IH]; intros t; simpl.
  - by rewrite app_nil_r.
  - rewrite IH. simpl. by rewrite <- app_assoc.
Qed.

(** The projection of a tracker that was only ever updated is the fold of
    its log. *)
Lemma state_updates evs : ∀ t,
  state (foldl update t evs) = foldl (λ s e, apply e s) (state t) evs.
Proof. induction evs as [|e evs IH]; intros t; [done|]. simpl. by rewrite IH. Qed.

Lemma persisted_after_updates evs : ∀ t s,
  persisted (store_after_updates t evs s) = persisted s.
Proof. induction evs as [|e evs IH]; intros t s; [done|]. simpl. by rewrite IH. Qed.

Lemma backend_after_updates evs : ∀ t s,
  backend_up (store_after_updates t evs s) = backend_up s.
Proof. induction evs as [|e evs IH]; intros t s; [done|]. simpl. by rewrite IH. Qed.

Lemma resident_after_updates evs : ∀ t s,
  resident s !! sender_id t = Some t →
  resident (store_after_updates t evs s) =
  <[sender_id t := foldl update t evs]> (resident s).
Proof.
  induction evs as [|e evs IH]; intros t s H; simpl.
  - by rewrite insert_id.
  - rewrite IH; simpl.
    + by rewrite insert_insert_eq.
    + by rewrite lookup_insert_eq.
Qed.

Lemma update_all_run evs : ∀ t w,
  update_all t evs w =
  (Return (foldl update t evs),
   {| agent := with_store (store_after_updates t evs (store_of w)) (agent w);
      response := response w;
      calls := calls w ++ (C_update (sender_id t) <$> evs) |}).
Proof.
  induction evs as [|e evs IH]; intros t w.
  - destruct w as [[dm s] r c]. simpl. unfold mret, M_ret, with_store. simpl.
    by rewrite app_nil_r.
  - simpl. unfold mbind, M_bind, tracker_update, log, on_store. simpl.
    rewrite IH. simpl. unfold store_of, with_store. simpl.
    by rewrite <- app_assoc.
Qed.

(** ** Running the handlers *)

(** Both sides list the same calls, bracketed differently. *)
Ltac same_calls :=
  repeat (rewrite <- ?app_assoc; simpl); reflexivity.

Lemma run_bind_return {A B} (c : M A) (k : A → M B) w a w' :
  c w = (Return a, w') → (c ≫= k) w = k a w'.
Proof. unfold mbind, M_bind. by intros ->. Qed.

Lemma run_bind_raise {A B} (c : M A) (k : A → M B) w x w' :
  c w = (Raise x, w') → (c ≫= k) w = (Raise x, w').
Proof. unfold mbind, M_bind. by intros ->. Qed.

Lemma run_bind_assoc {A B C} (c : M A) (r : A → M B) (k : B → M C) w :
  (a ← c; b ← r a; k b) w = ((c ≫= r) ≫= k) w.
Proof. unfold mbind, M_bind. by destruct (c w) as [[a|x] w']. Qed.

Lemma prelude_run {A} (k : list Event → M A) request j w :
  content request = Document j →
  (_ ← setHeader "Content-Type" "application/json";
   request_params ← load_content request;
   events ← convert request_params;
   k events) w =
  let r := convert_obj_2_tracker_events j (domain (agent w)) in
  match result r with
  | Return events => k events (after_prelude w (constructions r))
  | Raise x => (Raise x, after_prelude w (constructions r))
  end.
Proof.
  intros Hc. unfold load_content, convert. rewrite Hc.
  unfold mbind, M_bind, setHeader, log, get_domain, lift, mret, M_ret,
    after_prelude, json_header.
  simpl. rewrite <- !app_assoc. simpl.
  by destruct (result _).
Qed.

Lemma append_events_unfold request cid w j :
  content request = Document j →
  append_events request cid w =
  let r := convert_obj_2_tracker_events j (domain (agent w)) in
  match result r with
  | Return events =>
      apply_and_save (get_or_create_tracker cid) default_should_include_events
        events (after_prelude w (constructions r))
  | Raise x => (Raise x, after_prelude w (constructions r))
  end.
Proof. intros Hc. unfold append_events. by rewrite (prelude_run _ _ _ _ Hc). Qed.

Lemma update_tracker_unfold request cid w j :
  content request = Document j →
  update_tracker request cid w =
  let r := convert_obj_2_tracker_events j (domain (agent w)) in
  match result r with
  | Return events =>
      apply_and_save (create_tracker cid) true
        events (after_prelude w (constructions r))
  | Raise x => (Raise x, after_prelude w (constructions r))
  end.
Proof. intros Hc. unfold update_tracker. by rewrite (prelude_run _ _ _ _ Hc). Qed.

Lemma bad_body_fails request cid w x :
  body_error (content request) = Some x →
  append_events request cid w = (Raise x, after_bad_body (content request) w) ∧
  update_tracker request cid w = (Raise x, after_bad_body (content request) w).
Proof.
  intros Hx. unfold append_events, update_tracker, load_content.
  unfold mbind, M_bind, setHeader, log, raise, after_bad_body, after_header,
    after_prelude, json_header.
  destruct (content request); inversion Hx; subst; simpl;
    rewrite <- ?app_assoc; done.
Qed.

Lemma get_or_create_tracker_run cid w :
  get_or_create_tracker cid w =
  let '(o, s) := Store.get_or_create_tracker cid (store_of w) in
  (o, {| agent := with_store s (agent w); response := response w;
         calls := calls w ++ [C_get_or_create_tracker cid] |}).
Proof. reflexivity. Qed.

Lemma create_tracker_run cid w :
  create_tracker cid w =
  (Return (new cid),
   {| agent := with_store (set_resident cid (new cid) (store_of w)) (agent w);
      response := response w;
      calls := calls w ++ [C_create_tracker cid] |}).
Proof. reflexivity. Qed.

Lemma apply_and_save_run fetch incl evs w t0 w1 :
  fetch w = (Return t0, w1) →
  apply_and_save fetch incl evs w =
  if backend_up (store_of w1)
  then (Return (json_dumps (current_state (foldl update t0 evs) incl)),
        after_save w1 t0 evs incl)
  else (Raise PersistenceError,
        {| agent := with_store (store_after_updates t0 evs (store_of w1)) (agent w1);
           response := response w1;
           calls := calls w1 ++ (C_update (sender_id t0) <$> evs)
                    ++ [C_save (sender_id t0)] |}).
Proof.
  intros Hf. unfold apply_and_save.
  rewrite (run_bind_return _ _ _ _ _ Hf).
  rewrite (run_bind_return _ _ _ _ _ (update_all_run evs t0 w1)).
  unfold save, tracker_current_state, mbind, M_bind, log, on_store, Store.save,
    mret, M_ret, after_save. simpl.
  rewrite backend_after_updates, sender_id_updates, events_updates.
  destruct (backend_up (store_of w1)); simpl; by rewrite <- !app_assoc.
Qed.

Lemma apply_and_save_fetch_fails fetch incl evs w x w1 :
  fetch w = (Raise x, w1) →
  apply_and_save fetch incl evs w = (Raise x, w1).
Proof. intros Hf. unfold apply_and_save. by rewrite (run_bind_raise _ _ _ _ _ Hf). Qed.

(** ** Facts about the collaborators *)

Lemma from_parameters_raises etype ps d x :
  from_parameters etype ps d = Raise x →
  x = UnknownEventKind ∨ x = InvalidEventParams.
Proof.
  unfold from_parameters. intros H.
  repeat (match type of H with
          | context [match ?t with _ => _ end] => destruct t
          | context [if ?b then _ else _] => destruct b
          end; try discriminate H);
    inversion H; auto.
Qed.

Lemma from_parameters_unknown etype ps d :
  known_kind etype = false → from_parameters etype ps d = Raise UnknownEventKind.
Proof.
  unfold known_kind, from_parameters.
  by destruct (resolve_by_type etype).
Qed.

Lemma constructions_loop d l : ∀ acc,
  Forall (λ c, is_construction c = true) (constructions (convert_loop d l acc)).
Proof.
  induction l as [|e l IH]; intros acc; [constructor|].
  destruct e as [| | | | |m]; try (simpl; constructor).
  destruct (kind_of_mapping m) as [km|] eqn:Hk.
  - rewrite (convert_loop_construct _ _ _ _ _ Hk).
    destruct (from_parameters _ _ _); simpl; repeat constructor. apply IH.
  - rewrite (convert_loop_skip _ _ _ _ Hk). simpl. apply IH.
Qed.

Lemma constructions_are_constructions j d :
  Forall (λ c, is_construction c = true)
    (constructions (convert_obj_2_tracker_events j d)).
Proof.
  destruct j; simpl; try constructor. apply constructions_loop.
Qed.

Lemma events_rehydrate cid evs : events (rehydrate cid evs) = evs.
Proof. unfold rehydrate. by rewrite events_updates. Qed.

Lemma sender_id_rehydrate cid evs : sender_id (rehydrate cid evs) = cid.
Proof. unfold rehydrate. by rewrite sender_id_updates. Qed.

(** What [get_or_create_tracker] hands out is filed under the id asked for,
    and the other ids are as they were. *)
Lemma get_or_create_tracker_returns cid s t0 s1 :
  store_ok s →
  Store.get_or_create_tracker cid s = (Return t0, s1) →
  sender_id t0 = cid ∧ resident s1 !! cid = Some t0 ∧ store_ok s1 ∧
  backend_up s1 = backend_up s ∧
  (∀ c, c ≠ cid → resident s1 !! c = resident s !! c ∧
                  persisted s1 !! c = persisted s !! c).
Proof.
  unfold Store.get_or_create_tracker, store_ok. intros Hok H.
  destruct (resident s !! cid) as [t|] eqn:Hr.
  - inversion H; subst. repeat split; eauto.
  - destruct (backend_up s) eqn:Hb; [|discriminate H].
    destruct (persisted s !! cid) as [evs|];
      [|unfold Store.save in H; simpl in H; rewrite Hb in H];
      inversion H; subst; simpl;
      (split; [auto using sender_id_rehydrate|]);
      (split; [by rewrite lookup_insert_eq|]);
      (split; [apply map_Forall_insert_2; auto using sender_id_rehydrate|]);
      (split; [done|]); intros c Hc; by rewrite !lookup_insert_ne.
Qed.

Lemma get_or_create_tracker_raises cid s x s1 :
  Store.get_or_create_tracker cid s = (Raise x, s1) →
  x = PersistenceError ∧ s1 = s.
Proof.
  unfold Store.get_or_create_tracker. intros H.
  destruct (resident s !! cid); [discriminate H|].
  destruct (backend_up s) eqn:Hb.
  - destruct (persisted s !! cid); [discriminate H|].
    unfold Store.save in H. simpl in H. rewrite Hb in H. discriminate H.
  - by inversion H.
Qed.

Lemma store_ok_after_updates evs : ∀ t s,
  store_ok s → store_ok (store_after_updates t evs s).
Proof.
  induction evs as [|e evs IH]; intros t s H; [done|].
  simpl. apply IH. unfold store_ok. simpl. by apply map_Forall_insert_2.
Qed.

Lemma resident_other_after_updates evs c : ∀ t s,
  c ≠ sender_id t →
  resident (store_after_updates t evs s) !! c = resident s !! c.
Proof.
  induction evs as [|e evs IH]; intros t s H; [done|].
  simpl. rewrite IH; [|done]. simpl. by rewrite lookup_insert_ne.
Qed.

(** ** The tracker endpoints when everything succeeds *)

Lemma append_events_returns request cid w j evs t0 s1 :
  content request = Document j →
  result (convert_obj_2_tracker_events j (domain (agent w))) = Return evs →
  Store.get_or_create_tracker cid (store_of w) = (Return t0, s1) →
  backend_up s1 = true →
  append_events request cid w =
  (Return (json_dumps (current_state (foldl update t0 evs)
                         default_should_include_events)),
   after_save
     (after_fetch w (constructions
                       (convert_obj_2_tracker_events j (domain (agent w))))
        (C_get_or_create_tracker cid) s1)
     t0 evs default_should_include_events).
Proof.
  intros Hc Hr Hg Hb. rewrite (append_events_unfold _ _ _ _ Hc). cbv zeta.
  rewrite Hr.
  erewrite apply_and_save_run.
  2:{ rewrite get_or_create_tracker_run. unfold store_of, after_prelude. simpl.
      unfold store_of in Hg. rewrite Hg. reflexivity. }
  unfold store_of at 1. simpl. rewrite Hb. unfold after_fetch.
  same_calls.
Qed.

Lemma update_tracker_run request cid w j evs :
  content request = Document j →
  result (convert_obj_2_tracker_events j (domain (agent w))) = Return evs →
  let w1 := after_fetch w (constructions
                             (convert_obj_2_tracker_events j (domain (agent w))))
              (C_create_tracker cid) (set_resident cid (new cid) (store_of w)) in
  update_tracker request cid w =
  if backend_up (store_of w)
  then (Return (json_dumps (current_state (rehydrate cid evs) true)),
        after_save w1 (new cid) evs true)
  else (Raise PersistenceError,
        {| agent := with_store (store_after_updates (new cid) evs (store_of w1))
                      (agent w1);
           response := response w1;
           calls := calls w1 ++ (C_update cid <$> evs) ++ [C_save cid] |}).
Proof.
  intros Hc Hr w1. rewrite (update_tracker_unfold _ _ _ _ Hc). cbv zeta.
  rewrite Hr.
  erewrite apply_and_save_run.
  2:{ rewrite create_tracker_run. reflexivity. }
  unfold store_of at 1. simpl. unfold after_prelude, store_of. simpl.
  subst w1. unfold after_fetch, rehydrate, store_of. simpl.
  same_calls.
Qed.

(** C4. [POST /conversations/<cid>/tracker/events] runs its pipeline in
    order: the payload is deserialized, the events are constructed, the
    tracker of the id is fetched or created, every event is applied to it,
    the tracker is saved, and the serialized current state of that tracker
    is returned.  The hypotheses say that each stage succeeds. *)
Theorem append_events_pipeline request cid w j evs t0 s1 :
  content request = Document j →
  result (convert_obj_2_tracker_events j (domain (agent w))) = Return evs →
  store_ok (store_of w) →
  Store.get_or_create_tracker cid (store_of w) = (Return t0, s1) →
  backend_up (store_of w) = true →
  ∃ w' tracker,
    append_events request cid w =
      (Return (json_dumps (current_state tracker default_should_include_events)),
       w') ∧
    calls w' =
      calls w
      ++ [C_setHeader "Content-Type" "application/json"; C_json_loads]
      ++ constructions (convert_obj_2_tracker_events j (domain (agent w)))
      ++ [C_get_or_create_tracker cid]
      ++ (C_update cid <$> evs)
      ++ [C_save cid; C_current_state cid default_should_include_events] ∧
    Forall (λ c, is_construction c = true)
      (constructions (convert_obj_2_tracker_events j (domain (agent w)))) ∧
    tracker = foldl update t0 evs ∧
    resident (store_of w') !! cid = Some tracker ∧
    persisted (store_of w') !! cid = Some (events tracker).
Proof.
  intros Hc Hr Hok Hg Hb.
  destruct (get_or_create_tracker_returns _ _ _ _ Hok Hg)
    as (Hid & Hres & Hok1 & Hb1 & _).
  eexists _, _. split.
  { apply (append_events_returns _ _ _ _ _ _ _ Hc Hr Hg). congruence. }
  unfold after_save, after_fetch, store_of. simpl. rewrite Hid.
  split; [same_calls|].
  split; [apply constructions_are_constructions|].
  split; [done|].
  split.
  - rewrite resident_after_updates; rewrite Hid; [|done].
    by rewrite lookup_insert_eq.
  - by rewrite lookup_insert_eq, events_updates.
Qed.

Lemma convert_batch_returns d batch evs :
  Forall2 (constructs d) (kinded batch) evs →
  convert_obj_2_tracker_events (JArr (JObj <$> batch)) d =
  {| batch_after := JArr (JObj <$> (stripped <$> batch));
     constructions := construction_call <$> kinded batch;
     result := Return evs |}.
Proof.
  intros H. unfold convert_obj_2_tracker_events.
  by rewrite (convert_loop_returns _ _ [] _ H).
Qed.

(** C2. The events of a batch are constructed, and then applied to the
    tracker by one [update] call each, in the order in which their mappings
    stand in the batch: the constructions follow the kinded mappings of the
    batch, the updates follow the events made of them, and the log of the
    tracker grows by these events in that order.  Stated for the two
    endpoints that apply the events themselves. *)
Theorem batch_applied_in_input_order request cid w batch evs t0 s1 :
  carries request batch →
  Forall2 (constructs (domain (agent w))) (kinded batch) evs →
  store_ok (store_of w) →
  Store.get_or_create_tracker cid (store_of w) = (Return t0, s1) →
  backend_up (store_of w) = true →
  (∃ body w',
     append_events request cid w = (Return body, w') ∧
     calls w' =
       calls w
       ++ [C_setHeader "Content-Type" "application/json"; C_json_loads]
       ++ (construction_call <$> kinded batch)
       ++ [C_get_or_create_tracker cid]
       ++ (C_update cid <$> evs)
       ++ [C_save cid; C_current_state cid default_should_include_events] ∧
     events <$> resident (store_of w') !! cid = Some (events t0 ++ evs) ∧
     persisted (store_of w') !! cid = Some (events t0 ++ evs)) ∧
  (∃ body w',
     update_tracker request cid w = (Return body, w') ∧
     calls w' =
       calls w
       ++ [C_setHeader "Content-Type" "application/json"; C_json_loads]
       ++ (construction_call <$> kinded batch)
       ++ [C_create_tracker cid]
       ++ (C_update cid <$> evs)
       ++ [C_save cid; C_current_state cid true] ∧
     events <$> resident (store_of w') !! cid = Some evs ∧
     persisted (store_of w') !! cid = Some evs).
Proof.
  intros Hc Hall Hok Hg Hb. unfold carries in Hc.
  pose proof (convert_batch_returns _ _ _ Hall) as Hconv.
  destruct (get_or_create_tracker_returns _ _ _ _ Hok Hg)
    as (Hid & Hres & Hok1 & Hb1 & _).
  split.
  - eexists _, _. split.
    { apply (append_events_returns _ _ _ _ evs t0 s1 Hc); [|done|congruence].
      by rewrite Hconv. }
    rewrite Hconv. unfold after_save, after_fetch, store_of. simpl.
    rewrite Hid. split; [same_calls|].
    rewrite resident_after_updates; rewrite Hid; [|done].
    rewrite !lookup_insert_eq. simpl. by rewrite events_updates.
  - eexists _, _. split.
    { rewrite (update_tracker_run _ _ _ _ evs Hc); [|by rewrite Hconv].
      cbv zeta. rewrite Hb. reflexivity. }
    rewrite Hconv. unfold after_save, after_fetch, store_of. simpl.
    split; [same_calls|].
    rewrite (resident_after_updates evs (new cid)); simpl;
      [|by rewrite lookup_insert_eq].
    rewrite !lookup_insert_eq. simpl. by rewrite events_updates.
Qed.

(** C3. [PUT /conversations/<cid>/tracker] creates a fresh empty tracker
    for the id whatever the store held, applies the events of the batch to
    it in order and then calls [save]; when [save] succeeds the persisted
    log of the id is exactly the batch's events, and when it does not the
    persisted state is the one from before the request. *)
Theorem update_tracker_replaces_history request cid w j evs :
  content request = Document j →
  result (convert_obj_2_tracker_events j (domain (agent w))) = Return evs →
  ∃ w',
    calls w' =
      calls w
      ++ [C_setHeader "Content-Type" "application/json"; C_json_loads]
      ++ constructions (convert_obj_2_tracker_events j (domain (agent w)))
      ++ [C_create_tracker cid]
      ++ (C_update cid <$> evs)
      ++ [C_save cid]
      ++ (if backend_up (store_of w) then [C_current_state cid true] else []) ∧
    resident (store_of w') !! cid = Some (foldl update (new cid) evs) ∧
    events (foldl update (new cid) evs) = evs ∧
    if backend_up (store_of w)
    then update_tracker request cid w =
           (Return (json_dumps (current_state (foldl update (new cid) evs) true)),
            w') ∧
         persisted (store_of w') = <[cid := evs]> (persisted (store_of w))
    else update_tracker request cid w = (Raise PersistenceError, w') ∧
         persisted (store_of w') = persisted (store_of w).
Proof.
  intros Hc Hr. rewrite (update_tracker_run _ _ _ _ _ Hc Hr). cbv zeta.
  assert (Hres : ∀ s, resident (store_after_updates (new cid) evs
                         (set_resident cid (new cid) s)) !! cid
                      = Some (foldl update (new cid) evs)).
  { intros s. rewrite (resident_after_updates evs (new cid)); simpl;
      by rewrite lookup_insert_eq. }
  destruct (backend_up (store_of w)) eqn:Hb; eexists; unfold rehydrate;
    (split; [|split; [|split; [|split; [reflexivity|]]]]);
    unfold after_save, after_fetch, store_of; simpl.
  - same_calls.
  - apply Hres.
  - apply (events_updates evs (new cid)).
  - by rewrite persisted_after_updates.
  - same_calls.
  - apply Hres.
  - apply (events_updates evs (new cid)).
  - by rewrite persisted_after_updates.
Qed.

(** What a get-or-create that returns has done to the persisted logs: for
    an id that is neither resident nor persisted the store has saved the new
    empty tracker, for any other id nothing is written. *)
Lemma get_or_create_tracker_persisted cid s t0 s1 :
  Store.get_or_create_tracker cid s = (Return t0, s1) →
  match resident s !! cid, persisted s !! cid with
  | None, None =>
      t0 = new cid ∧
      Store.save (new cid) (set_resident cid (new cid) s) = (Return (), s1) ∧
      persisted s1 = <[cid := []]> (persisted s)
  | _, _ => persisted s1 = persisted s
  end.
Proof.
  unfold Store.get_or_create_tracker. intros H.
  destruct (resident s !! cid) as [t|].
  { inversion H; subst. by destruct (persisted s1 !! cid). }
  destruct (backend_up s) eqn:Hb; [|discriminate H].
  destruct (persisted s !! cid) as [evs|]; [by inversion H|].
  unfold Store.save in *. simpl in *. rewrite Hb in *. by inversion H.
Qed.

(** C6, as amended.  [GET /conversations/<cid>/tracker] returns the
    snapshot of the tracker that get-or-create hands out for the id, asked
    for with [should_include_events=True], so with the full ordered event
    list in it, and the handler itself makes no [save] call.  The store is
    left as get-or-create left it: the persisted logs are unchanged when the
    id was resident or persisted, and for an id the store did not know the
    new empty tracker has been persisted by a [save] of the store's own. *)
Theorem retrieve_tracker_snapshot request cid w t0 s1 :
  store_ok (store_of w) →
  Store.get_or_create_tracker cid (store_of w) = (Return t0, s1) →
  ∃ w' snapshot,
    retrieve_tracker request cid w = (Return (json_dumps (JObj snapshot)), w') ∧
    JObj snapshot = current_state t0 true ∧
    snapshot !! "sender_id" = Some (JStr cid) ∧
    snapshot !! "events" = Some (JArr (as_dict <$> events t0)) ∧
    calls w' =
      calls w
      ++ [C_setHeader "Content-Type" "application/json";
          C_get_or_create_tracker cid; C_current_state cid true] ∧
    Forall (λ c, is_save c = false) (drop (length (calls w)) (calls w')) ∧
    store_of w' = s1 ∧
    match resident (store_of w) !! cid, persisted (store_of w) !! cid with
    | None, None =>
        t0 = new cid ∧
        Store.save (new cid) (set_resident cid (new cid) (store_of w))
          = (Return (), s1) ∧
        persisted (store_of w') = <[cid := []]> (persisted (store_of w))
    | _, _ => persisted (store_of w') = persisted (store_of w)
    end.
Proof.
  intros Hok Hg.
  destruct (get_or_create_tracker_returns _ _ _ _ Hok Hg) as (Hid & _).
  pose proof (get_or_create_tracker_persisted _ _ _ _ Hg) as Hp.
  unfold retrieve_tracker.
  unfold mbind at 1. unfold M_bind, setHeader.
  erewrite run_bind_return.
  2:{ rewrite get_or_create_tracker_run. unfold store_of in *. simpl.
      rewrite Hg. reflexivity. }
  unfold tracker_current_state, mbind, M_bind, log, mret, M_ret. simpl.
  eexists _, _. split; [reflexivity|]. split; [reflexivity|].
  rewrite Hid. split; [by rewrite lookup_insert_ne, lookup_insert_eq|].
  split; [by rewrite lookup_insert_eq|].
  split; [same_calls|].
  split.
  { simpl. rewrite <- !app_assoc, drop_app_length. simpl. repeat constructor. }
  split; [reflexivity|]. exact Hp.
Qed.

(** ** Construct, then apply *)

Lemma apply_and_save_calls fetch fetch_call incl evs w :
  (∃ o s, fetch w = (o, {| agent := with_store s (agent w);
                           response := response w;
                           calls := calls w ++ [fetch_call] |})) →
  is_construction fetch_call = false →
  ∃ rest',
    calls (apply_and_save fetch incl evs w).2 = calls w ++ fetch_call :: rest' ∧
    Forall (λ c, is_construction c = false) rest'.
Proof.
  intros (o & s & Hf) Hfc. destruct o as [t0|x].
  - rewrite (apply_and_save_run _ _ _ _ _ _ Hf).
    destruct (backend_up _); simpl; eexists; (split; [same_calls|]);
      apply Forall_app; (split; [apply Forall_fmap, Forall_true; done|]);
      repeat constructor.
  - rewrite (apply_and_save_fetch_fails _ _ _ _ _ _ Hf). simpl.
    exists []. split; [done|constructor].
Qed.

Lemma get_or_create_tracker_shape cid w :
  ∃ o s, get_or_create_tracker cid w =
         (o, {| agent := with_store s (agent w); response := response w;
                calls := calls w ++ [C_get_or_create_tracker cid] |}).
Proof.
  rewrite get_or_create_tracker_run.
  destruct (Store.get_or_create_tracker cid (store_of w)) as [o s]. eauto.
Qed.

Lemma create_tracker_shape cid w :
  ∃ o s, create_tracker cid w =
         (o, {| agent := with_store s (agent w); response := response w;
                calls := calls w ++ [C_create_tracker cid] |}).
Proof. rewrite create_tracker_run. eauto. Qed.

Lemma constructs_before_applying_intro handler fetch fetch_call incl
    request cid w j :
  (handler request cid w =
   let r := convert_obj_2_tracker_events j (domain (agent w)) in
   match result r with
   | Return events =>
       apply_and_save fetch incl events (after_prelude w (constructions r))
   | Raise x => (Raise x, after_prelude w (constructions r))
   end) →
  (∀ w, ∃ o s, fetch w = (o, {| agent := with_store s (agent w);
                                response := response w;
                                calls := calls w ++ [fetch_call] |})) →
  is_construction fetch_call = false →
  constructs_before_applying handler fetch_call request cid w j.
Proof.
  intros Hh Hf Hfc. unfold constructs_before_applying. rewrite Hh. cbv zeta.
  destruct (result _) as [evs|x].
  - destruct (apply_and_save_calls fetch fetch_call incl evs
                (after_prelude w (constructions
                   (convert_obj_2_tracker_events j (domain (agent w)))))
                (Hf _) Hfc) as (rest' & Hcalls & Hrest).
    exists (fetch_call :: rest'). rewrite Hcalls. simpl.
    split; [same_calls|].
    split; [apply constructions_are_constructions|].
    split; [by constructor|]. eauto.
  - exists []. simpl. rewrite app_nil_r.
    split; [done|].
    split; [apply constructions_are_constructions|].
    split; [constructor|done].
Qed.

(** C5. In [POST .../tracker/events] and [PUT .../tracker] every event of
    the batch is constructed before the tracker is fetched or any update is
    applied; so if the construction of an event fails, the handler raises
    that error with no store call made and nothing of the agent's trackers
    changed. *)
Theorem construct_then_apply request cid w j :
  content request = Document j →
  constructs_before_applying append_events (C_get_or_create_tracker cid)
    request cid w j ∧
  constructs_before_applying update_tracker (C_create_tracker cid)
    request cid w j.
Proof.
  intros Hc. split.
  - eapply constructs_before_applying_intro;
      [by apply append_events_unfold|apply get_or_create_tracker_shape|done].
  - eapply constructs_before_applying_intro;
      [by apply update_tracker_unfold|apply create_tracker_shape|done].
Qed.

(** ** Unknown event kinds *)

Lemma convert_batch_raises d pre m post km x evs :
  Forall2 (constructs d) (kinded pre) evs →
  kind_of_mapping m = Some km →
  from_parameters km.1 km.2 d = Raise x →
  convert_obj_2_tracker_events (JArr (JObj <$> (pre ++ m :: post))) d =
  {| batch_after := JArr (JObj <$> ((stripped <$> pre) ++ stripped m :: post));
     constructions := construction_call <$> (kinded pre ++ [km]);
     result := Raise x |}.
Proof.
  intros H Hk Hx. unfold convert_obj_2_tracker_events.
  by rewrite (convert_loop_raises _ _ _ _ _ _ [] _ H Hk Hx).
Qed.

Lemma no_construction_past_failure d p1 m p2 km x :
  kind_of_mapping m = Some km →
  from_parameters km.1 km.2 d = Raise x →
  ¬ ∃ evs, Forall2 (constructs d) (kinded (p1 ++ m :: p2)) evs.
Proof.
  intros Hk Hx [evs H]. rewrite kinded_app, kinded_cons, Hk in H.
  apply Forall2_app_inv_l in H as (e1 & e2 & _ & H & _).
  inversion H as [|? ev ? ? Hc]; subst. unfold constructs in Hc. congruence.
Qed.

(** A batch with a mapping of unknown kind does not convert: the
    conversion raises [UnknownEventKind], unless a mapping before it already
    failed construction with [InvalidEventParams]. *)
Lemma convert_batch_with_unknown d pre m post :
  unknown_kind_mapping m = true →
  ∃ x,
    result (convert_obj_2_tracker_events
              (JArr (JObj <$> (pre ++ m :: post))) d) = Raise x ∧
    (x = UnknownEventKind ∨
     (x = InvalidEventParams ∧
      ¬ ∃ evs, Forall2 (constructs d) (kinded pre) evs)).
Proof.
  unfold unknown_kind_mapping. intros Hm.
  destruct (kind_of_mapping m) as [[etype ps]|] eqn:Hk; [|discriminate Hm].
  apply negb_true_iff in Hm.
  destruct (batch_cases d pre)
    as [[evs H]|(p1 & m' & p2 & km' & x & evs & -> & H & Hk' & Hx)].
  - exists UnknownEventKind. split; [|by left].
    erewrite convert_batch_raises; eauto.
    simpl. by apply from_parameters_unknown.
  - exists x. split.
    + rewrite <- app_assoc, <- app_comm_cons.
      erewrite convert_batch_raises; eauto.
    + destruct (from_parameters_raises _ _ _ _ Hx) as [->| ->]; [by left|].
      right. split; [done|]. by eapply no_construction_past_failure.
Qed.

Lemma continue_predicting_unfold cmh request cid w params :
  content request = Document (JObj params) →
  continue_predicting cmh request cid w =
  let r := convert_obj_2_tracker_events (dict_get params "events" (JArr []))
             (domain (agent w)) in
  let executed_action := dict_get params "executed_action" JNull in
  match result r with
  | Return events =>
      (_ ← log [C_continue_message_handling cid executed_action events];
       response ← on_agent (cmh cid executed_action events);
       mret (json_dumps response)) (after_prelude w (constructions r))
  | Raise x => (Raise x, after_prelude w (constructions r))
  end.
Proof.
  intros Hc. unfold continue_predicting, load_content, convert. rewrite Hc.
  unfold mbind at 1 2 3 4 5. unfold M_bind, setHeader, log, get_domain, lift,
    mret, M_ret, after_prelude, json_header.
  simpl. rewrite <- !app_assoc. simpl.
  by destruct (result _).
Qed.

(** C1, as amended.  If a mapping of a batch names an event kind that is
    not statically known, the batch is not dropped silently: each of the
    event-accepting endpoints raises, with [UnknownEventKind] unless a
    mapping before the unknown one already failed construction with
    [InvalidEventParams], and it raises before any tracker is touched: the
    agent is as it was and no [update] call is made. *)
Theorem unknown_kind_rejected cmh request request_c params cid w pre m post :
  carries request (pre ++ m :: post) →
  content request_c = Document (JObj params) →
  params !! "events" = Some (JArr (JObj <$> (pre ++ m :: post))) →
  unknown_kind_mapping m = true →
  ∃ x cs,
    append_events request cid w = (Raise x, after_prelude w cs) ∧
    update_tracker request cid w = (Raise x, after_prelude w cs) ∧
    continue_predicting cmh request_c cid w = (Raise x, after_prelude w cs) ∧
    agent (after_prelude w cs) = agent w ∧
    Forall (λ c, is_update c = false ∧ is_message_handling c = false)
      (drop (length (calls w)) (calls (after_prelude w cs))) ∧
    (x = UnknownEventKind ∨
     (x = InvalidEventParams ∧
      ¬ ∃ evs, Forall2 (constructs (domain (agent w))) (kinded pre) evs)).
Proof.
  intros Hc Hcc Hev Hm. unfold carries in Hc.
  destruct (convert_batch_with_unknown (domain (agent w)) pre m post Hm)
    as (x & Hx & Hwhich).
  exists x, (constructions (convert_obj_2_tracker_events
                              (JArr (JObj <$> (pre ++ m :: post)))
                              (domain (agent w)))).
  split; [by rewrite (append_events_unfold _ _ _ _ Hc); cbv zeta; rewrite Hx|].
  split; [by rewrite (update_tracker_unfold _ _ _ _ Hc); cbv zeta; rewrite Hx|].
  split.
  { rewrite (continue_predicting_unfold _ _ _ _ _ Hcc). unfold dict_get.
    rewrite Hev. simpl default. cbv zeta. by rewrite Hx. }
  split; [done|]. split; [|done].
  unfold after_prelude. simpl. rewrite drop_app_length.
  repeat (constructor; [done|]).
  eapply Forall_impl; [apply constructions_loop|].
  intros c. by destruct c.
Qed.

(** ** In-place deletion of the ["event"] entries *)

(** C9, as amended.  [convert_obj_2_tracker_events] mutates its input.
    When it returns, every mapping whose ["event"] entry is there and not
    [None] has lost that entry (what remains were the construction
    parameters) and the other mappings are unchanged and stand for no event.
    When the construction of a mapping raises, that holds for the mappings
    up to and including this one; the mappings after it are untouched. *)
Theorem convert_deletes_event_keys d batch :
  (∀ m, stripped m = match m !! "event" with
                     | None | Some JNull => m
                     | Some _ => delete "event" m
                     end) ∧
  let r := convert_obj_2_tracker_events (JArr (JObj <$> batch)) d in
  match result r with
  | Return evs =>
      batch_after r = JArr (JObj <$> (stripped <$> batch)) ∧
      constructions r = construction_call <$> kinded batch ∧
      Forall2 (constructs d) (kinded batch) evs
  | Raise x =>
      ∃ pre m post km,
        batch = pre ++ m :: post ∧
        kind_of_mapping m = Some km ∧
        from_parameters km.1 km.2 d = Raise x ∧
        batch_after r =
          JArr (JObj <$> ((stripped <$> pre) ++ stripped m :: post))
  end.
Proof.
  split.
  { intros m. unfold stripped, kind_of_mapping.
    by destruct (m !! "event") as [[]|]. }
  destruct (batch_cases d batch)
    as [[evs H]|(pre & m & post & km & x & evs & -> & H & Hk & Hx)].
  - rewrite (convert_batch_returns _ _ _ H). simpl. done.
  - rewrite (convert_batch_raises _ _ _ _ _ _ _ H Hk Hx). simpl.
    by exists pre, m, post, km.
Qed.

(** ** The [parse] endpoint *)

Lemma read_params_run request m w :
  has_params request m →
  (_ ← setHeader "Content-Type" "application/json"; read_params request) w =
  (Return (JObj m), after_params request w).
Proof.
  unfold read_params, after_params, load_content.
  intros [[Hm Ha]|(meth & Hm & Hne & Hc)]; rewrite Hm.
  - unfold mbind at 1 2. unfold M_bind, setHeader, lift. simpl.
    unfold mbind, Outcome_bind, mret, Outcome_ret. rewrite Ha. reflexivity.
  - unfold mbind at 1 2. unfold M_bind, setHeader, lift.
    destruct (decide (meth = "GET")) as [?|_]; [done|].
    rewrite Hc. unfold mbind, M_bind, log, mret, M_ret. simpl.
    same_calls.
Qed.

Lemma parse_unfold smh fmt request cid w m :
  has_params request m →
  parse smh fmt request cid w =
  match m !! "query" with
  | Some message => handled smh fmt message cid (after_params request w)
  | None =>
      match m !! "q" with
      | Some message => handled smh fmt message cid (after_params request w)
      | None => not_found (after_params request w)
      end
  end.
Proof.
  intros Hp. pose proof (read_params_run _ _ w Hp) as Hr.
  unfold parse.
  rewrite (run_bind_assoc (setHeader _ _) (λ _, read_params request)).
  rewrite (run_bind_return _ _ _ _ _ Hr).
  unfold pick_message, contains, pop, lift, handled, not_found, try_except.
  unfold mbind, M_bind, mret, M_ret, log, on_agent, setResponseCode.
  destruct (m !! "query") as [message|]; simpl.
  - destruct (smh message cid _) as [[answer|e] a]; simpl; same_calls.
  - destruct (m !! "q") as [message|]; simpl; [|done].
    destruct (smh message cid _) as [[answer|e] a]; simpl; same_calls.
Qed.

(** C10. In [parse], a ["query"] parameter is the message handed to the
    agent, whether or not ["q"] is there as well; with neither of the two
    the handler answers status 404 with the body
    [{"error": "Invalid parse parameter specified"}] and the agent's message
    handling is not invoked. *)
Theorem parse_query_precedence smh fmt request cid w m :
  has_params request m →
  match m !! "query" with
  | Some message =>
      parse smh fmt request cid w =
        handled smh fmt message cid (after_params request w) ∧
      C_start_message_handling message cid
        ∈ drop (length (calls w)) (calls (parse smh fmt request cid w).2)
  | None =>
      match m !! "q" with
      | Some _ => True
      | None =>
          (parse smh fmt request cid w).1 =
            Return (json_dumps
                      (JObj {["error" := JStr "Invalid parse parameter specified"]})) ∧
          code (response (parse smh fmt request cid w).2) = 404%Z ∧
          agent (parse smh fmt request cid w).2 = agent w ∧
          Forall (λ c, is_message_handling c = false)
            (drop (length (calls w)) (calls (parse smh fmt request cid w).2))
      end
  end.
Proof.
  intros Hp. rewrite (parse_unfold _ _ _ _ _ _ Hp).
  destruct (m !! "query") as [message|].
  - split; [done|]. unfold handled.
    destruct (smh message cid _) as [[response|e] a]; simpl;
      rewrite <- !app_assoc, drop_app_length;
      rewrite !elem_of_app; right; left; apply list_elem_of_here.
  - destruct (m !! "q"); [done|]. unfold not_found. simpl.
    split; [done|]. split; [done|]. split; [done|].
    rewrite <- !app_assoc, drop_app_length.
    destruct (decode (method request)) as [meth|]; simpl;
      [destruct (decide (meth = "GET"))|]; simpl; repeat constructor.
Qed.

(** ** Failures and the other conversations *)

Lemma same_elsewhere_refl cid s : same_elsewhere cid s s.
Proof. by intros c _. Qed.

Lemma same_elsewhere_trans cid s1 s2 s3 :
  same_elsewhere cid s1 s2 → same_elsewhere cid s2 s3 → same_elsewhere cid s1 s3.
Proof.
  intros H12 H23 c Hc. destruct (H12 c Hc), (H23 c Hc). split; congruence.
Qed.

Lemma apply_and_save_elsewhere fetch incl evs w t0 w1 cid :
  fetch w = (Return t0, w1) →
  sender_id t0 = cid →
  same_elsewhere cid (store_of w1)
    (store_of (apply_and_save fetch incl evs w).2).
Proof.
  intros Hf Hid c Hc. rewrite (apply_and_save_run _ _ _ _ _ _ Hf).
  destruct (backend_up (store_of w1)); unfold after_save, store_of; simpl;
    rewrite resident_other_after_updates, persisted_after_updates,
      ?lookup_insert_ne; rewrite ?Hid; done.
Qed.

(** X19. Whatever a request to one of the tracker endpoints does, and
    whether it returns or raises, the trackers and persisted logs of the other
    conversation ids are as they were. *)
Lemma tracker_endpoints_keep_other_ids request cid w :
  store_ok (store_of w) →
  same_elsewhere cid (store_of w) (store_of (append_events request cid w).2) ∧
  same_elsewhere cid (store_of w) (store_of (update_tracker request cid w).2) ∧
  same_elsewhere cid (store_of w) (store_of (retrieve_tracker request cid w).2).
Proof.
  intros Hok.
  assert (Hfetch : ∀ w0 : World, store_of w0 = store_of w →
            ∀ incl evs,
            same_elsewhere cid (store_of w)
              (store_of (apply_and_save (get_or_create_tracker cid) incl evs w0).2)).
  { intros w0 Hw0 incl evs.
    destruct (Store.get_or_create_tracker cid (store_of w))
      as [[t0|x] s1] eqn:Hg.
    - destruct (get_or_create_tracker_returns _ _ _ _ Hok Hg)
        as (Hid & _ & _ & _ & Hs1).
      eapply same_elsewhere_trans; [exact Hs1|].
      eapply (apply_and_save_elsewhere _ _ _ w0 t0
                {| agent := with_store s1 (agent w0); response := response w0;
                   calls := calls w0 ++ [C_get_or_create_tracker cid] |});
        [|done].
      rewrite get_or_create_tracker_run, Hw0, Hg. reflexivity.
    - destruct (get_or_create_tracker_raises _ _ _ _ Hg) as [-> ->].
      erewrite apply_and_save_fetch_fails.
      2:{ rewrite get_or_create_tracker_run, Hw0, Hg. reflexivity. }
      apply same_elsewhere_refl. }
  split; [|split].
  - destruct (body_error (content request)) as [x|] eqn:Hx.
    { destruct (bad_body_fails request cid w x Hx) as [-> _].
      destruct (content request); apply same_elsewhere_refl. }
    destruct (content request) as [| |j] eqn:Hc; try discriminate Hx.
    rewrite (append_events_unfold _ _ _ _ Hc). cbv zeta.
    destruct (result _) as [evs|x]; [by apply Hfetch|apply same_elsewhere_refl].
  - destruct (body_error (content request)) as [x|] eqn:Hx.
    { destruct (bad_body_fails request cid w x Hx) as [_ ->].
      destruct (content request); apply same_elsewhere_refl. }
    destruct (content request) as [| |j] eqn:Hc; try discriminate Hx.
    rewrite (update_tracker_unfold _ _ _ _ Hc). cbv zeta.
    destruct (result _) as [evs|x]; [|apply same_elsewhere_refl].
    eapply same_elsewhere_trans;
      [|eapply apply_and_save_elsewhere; [apply create_tracker_run|done]].
    intros c Hne. unfold store_of. simpl. by rewrite lookup_insert_ne.
  - unfold retrieve_tracker.
    unfold mbind at 1. unfold M_bind, setHeader.
    destruct (Store.get_or_create_tracker cid (store_of w))
      as [[t0|x] s1] eqn:Hg.
    + destruct (get_or_create_tracker_returns _ _ _ _ Hok Hg)
        as (_ & _ & _ & _ & Hs1).
      erewrite run_bind_return.
      2:{ rewrite get_or_create_tracker_run. unfold store_of in *. simpl.
          rewrite Hg. reflexivity. }
      exact Hs1.
    + destruct (get_or_create_tracker_raises _ _ _ _ Hg) as [-> ->].
      erewrite run_bind_raise.
      2:{ rewrite get_or_create_tracker_run. unfold store_of in *. simpl.
          rewrite Hg. reflexivity. }
      apply same_elsewhere_refl.
Qed.

(** An exception of the agent's message handling does not leave [parse]:
    the handler answers status 500 with the formatted exception. *)
Lemma parse_answers_handling_failure smh fmt request cid w m message e a :
  has_params request m →
  m !! "query" = Some message →
  smh message cid (agent w) = (Raise e, a) →
  (parse smh fmt request cid w).1 = Return (error_body (fmt e)) ∧
  code (response (parse smh fmt request cid w).2) = 500%Z.
Proof.
  intros Hp Hq Hs. rewrite (parse_unfold _ _ _ _ _ _ Hp), Hq.
  unfold handled. simpl. by rewrite Hs.
Qed.

Lemma sample_store_ok : store_ok (store_of Sample.world).
Proof. apply map_Forall_empty. Qed.

(** The second scenario of the specification: an executed action, then a
    slot set by a second request on the same id. *)
Example two_appends_scenario :
  let w1 := (append_events (Sample.post_batch [Sample.greet]) "c2" Sample.world).2 in
  let w2 := (append_events (Sample.post_batch [Sample.set_x]) "c2" w1).2 in
  (λ t, (latest_action (state t), slots (state t) !! "x", turn_count (state t)))
    <$> resident (store_of w2) !! "c2"
  = Some (Some "utter_greet", Some (JNum 2), 1).
Proof. vm_compute. reflexivity. Qed.

(** ** The theorems at concrete requests *)

Lemma append_events_pipeline_witness :
  ∃ w' tracker,
    append_events (Sample.post_batch [Sample.greet; Sample.no_kind; Sample.set_x])
      "c1" Sample.world =
      (Return (json_dumps (current_state tracker default_should_include_events)),
       w') ∧
    calls w' =
      calls Sample.world
      ++ [C_setHeader "Content-Type" "application/json"; C_json_loads]
      ++ constructions
           (convert_obj_2_tracker_events
              (JArr (JObj <$> [Sample.greet; Sample.no_kind; Sample.set_x]))
              (domain (agent Sample.world)))
      ++ [C_get_or_create_tracker "c1"]
      ++ (C_update "c1" <$> [ActionExecuted "utter_greet"; SlotSet "x" (JNum 2)])
      ++ [C_save "c1"; C_current_state "c1" default_should_include_events] ∧
    Forall (λ c, is_construction c = true)
      (constructions
         (convert_obj_2_tracker_events
            (JArr (JObj <$> [Sample.greet; Sample.no_kind; Sample.set_x]))
            (domain (agent Sample.world)))) ∧
    tracker =
      foldl update (rehydrate "c1" [ActionExecuted "utter_greet"])
        [ActionExecuted "utter_greet"; SlotSet "x" (JNum 2)] ∧
    resident (store_of w') !! "c1" = Some tracker ∧
    persisted (store_of w') !! "c1" = Some (events tracker).
Proof.
  apply (append_events_pipeline _ "c1" Sample.world
           (JArr (JObj <$> [Sample.greet; Sample.no_kind; Sample.set_x]))
           [ActionExecuted "utter_greet"; SlotSet "x" (JNum 2)]
           (rehydrate "c1" [ActionExecuted "utter_greet"])
           (set_resident "c1" (rehydrate "c1" [ActionExecuted "utter_greet"])
              Sample.store)).
  - reflexivity.
  - vm_compute. reflexivity.
  - exact sample_store_ok.
  - vm_compute. reflexivity.
  - reflexivity.
Defined.

Lemma batch_applied_in_input_order_witness :
  (∃ body w',
     append_events (Sample.post_batch [Sample.greet; Sample.no_kind; Sample.set_x])
       "c1" Sample.world = (Return body, w') ∧
     calls w' =
       calls Sample.world
       ++ [C_setHeader "Content-Type" "application/json"; C_json_loads]
       ++ (construction_call
             <$> kinded [Sample.greet; Sample.no_kind; Sample.set_x])
       ++ [C_get_or_create_tracker "c1"]
       ++ (C_update "c1" <$> [ActionExecuted "utter_greet"; SlotSet "x" (JNum 2)])
       ++ [C_save "c1"; C_current_state "c1" default_should_include_events] ∧
     events <$> resident (store_of w') !! "c1" =
       Some (events (rehydrate "c1" [ActionExecuted "utter_greet"])
             ++ [ActionExecuted "utter_greet"; SlotSet "x" (JNum 2)]) ∧
     persisted (store_of w') !! "c1" =
       Some (events (rehydrate "c1" [ActionExecuted "utter_greet"])
             ++ [ActionExecuted "utter_greet"; SlotSet "x" (JNum 2)])) ∧
  (∃ body w',
     update_tracker (Sample.post_batch [Sample.greet; Sample.no_kind; Sample.set_x])
       "c1" Sample.world = (Return body, w') ∧
     calls w' =
       calls Sample.world
       ++ [C_setHeader "Content-Type" "application/json"; C_json_loads]
       ++ (construction_call
             <$> kinded [Sample.greet; Sample.no_kind; Sample.set_x])
       ++ [C_create_tracker "c1"]
       ++ (C_update "c1" <$> [ActionExecuted "utter_greet"; SlotSet "x" (JNum 2)])
       ++ [C_save "c1"; C_current_state "c1" true] ∧
     events <$> resident (store_of w') !! "c1" =
       Some [ActionExecuted "utter_greet"; SlotSet "x" (JNum 2)] ∧
     persisted (store_of w') !! "c1" =
       Some [ActionExecuted "utter_greet"; SlotSet "x" (JNum 2)]).
Proof.
  apply (batch_applied_in_input_order _ "c1" Sample.world
           [Sample.greet; Sample.no_kind; Sample.set_x]
           [ActionExecuted "utter_greet"; SlotSet "x" (JNum 2)]
           (rehydrate "c1" [ActionExecuted "utter_greet"])
           (set_resident "c1" (rehydrate "c1" [ActionExecuted "utter_greet"])
              Sample.store)).
  - reflexivity.
  - repeat constructor; vm_compute; reflexivity.
  - exact sample_store_ok.
  - vm_compute. reflexivity.
  - reflexivity.
Defined.

Lemma update_tracker_replaces_history_witness :
  ∃ w',
    update_tracker (Sample.post_batch [Sample.set_x]) "c1" Sample.world =
      (Return (json_dumps
                 (current_state (foldl update (new "c1") [SlotSet "x" (JNum 2)])
                    true)), w') ∧
    persisted (store_of w') !! "c1" = Some [SlotSet "x" (JNum 2)] ∧
    persisted (store_of Sample.world) !! "c1" = Some [ActionExecuted "utter_greet"].
Proof.
  destruct (update_tracker_replaces_history
              (Sample.post_batch [Sample.set_x]) "c1" Sample.world
              (JArr (JObj <$> [Sample.set_x])) [SlotSet "x" (JNum 2)])
    as (w' & _ & _ & _ & Hrun & Hp).
  - reflexivity.
  - vm_compute. reflexivity.
  - exists w'. split; [exact Hrun|]. split; [|reflexivity].
    rewrite Hp. apply lookup_insert_eq.
Defined.

Lemma retrieve_tracker_snapshot_witness :
  (∃ w' snapshot,
     retrieve_tracker (Sample.post JNull) "c1" Sample.world =
       (Return (json_dumps (JObj snapshot)), w') ∧
     JObj snapshot =
       current_state (rehydrate "c1" [ActionExecuted "utter_greet"]) true ∧
     snapshot !! "events" =
       Some (JArr (as_dict
                     <$> events (rehydrate "c1" [ActionExecuted "utter_greet"]))) ∧
     calls w' =
       calls Sample.world
       ++ [C_setHeader "Content-Type" "application/json";
           C_get_or_create_tracker "c1"; C_current_state "c1" true] ∧
     persisted (store_of w') = persisted (store_of Sample.world)) ∧
  (∃ w' snapshot,
     retrieve_tracker (Sample.post JNull) "c9" Sample.world =
       (Return (json_dumps (JObj snapshot)), w') ∧
     JObj snapshot = current_state (new "c9") true ∧
     snapshot !! "events" = Some (JArr []) ∧
     Forall (λ c, is_save c = false)
       (drop (length (calls Sample.world)) (calls w')) ∧
     persisted (store_of w') = <["c9" := []]> (persisted (store_of Sample.world))).
Proof.
  split.
  - destruct (retrieve_tracker_snapshot (Sample.post JNull) "c1" Sample.world
                (rehydrate "c1" [ActionExecuted "utter_greet"])
                (set_resident "c1"
                   (rehydrate "c1" [ActionExecuted "utter_greet"]) Sample.store)
                sample_store_ok)
      as (w' & snapshot & Hrun & Hsnap & _ & Hev & Hcalls & _ & _ & Hp).
    { vm_compute. reflexivity. }
    assert (Hr : resident (store_of Sample.world) !! "c1" = None)
      by (vm_compute; reflexivity).
    assert (Hq : persisted (store_of Sample.world) !! "c1"
                 = Some [ActionExecuted "utter_greet"])
      by (vm_compute; reflexivity).
    rewrite Hr, Hq in Hp.
    exists w', snapshot. repeat split; assumption.
  - destruct (retrieve_tracker_snapshot (Sample.post JNull) "c9" Sample.world
                (new "c9")
                (set_persisted "c9" []
                   (set_resident "c9" (new "c9") Sample.store))
                sample_store_ok)
      as (w' & snapshot & Hrun & Hsnap & _ & Hev & _ & Hsave & _ & Hp).
    { vm_compute. reflexivity. }
    assert (Hr : resident (store_of Sample.world) !! "c9" = None)
      by (vm_compute; reflexivity).
    assert (Hq : persisted (store_of Sample.world) !! "c9" = None)
      by (vm_compute; reflexivity).
    rewrite Hr, Hq in Hp. destruct Hp as (_ & _ & Hp).
    exists w', snapshot. repeat split; assumption.
Defined.

Lemma construct_then_apply_witness :
  constructs_before_applying append_events (C_get_or_create_tracker "c1")
    (Sample.post_batch [Sample.greet; Sample.bogus]) "c1" Sample.world
    (JArr (JObj <$> [Sample.greet; Sample.bogus])) ∧
  constructs_before_applying update_tracker (C_create_tracker "c1")
    (Sample.post_batch [Sample.greet; Sample.bogus]) "c1" Sample.world
    (JArr (JObj <$> [Sample.greet; Sample.bogus])).
Proof.
  apply (construct_then_apply
           (Sample.post_batch [Sample.greet; Sample.bogus]) "c1" Sample.world).
  reflexivity.
Defined.

Lemma unknown_kind_rejected_witness :
  ∃ x cs,
    append_events (Sample.post_batch [Sample.greet; Sample.bogus; Sample.set_x])
      "c1" Sample.world = (Raise x, after_prelude Sample.world cs) ∧
    update_tracker (Sample.post_batch [Sample.greet; Sample.bogus; Sample.set_x])
      "c1" Sample.world = (Raise x, after_prelude Sample.world cs) ∧
    continue_predicting Sample.quiet
      (Sample.post
         (JObj {["events" :=
                   JArr (JObj <$> [Sample.greet; Sample.bogus; Sample.set_x])]}))
      "c1" Sample.world = (Raise x, after_prelude Sample.world cs) ∧
    agent (after_prelude Sample.world cs) = agent Sample.world ∧
    Forall (λ c, is_update c = false ∧ is_message_handling c = false)
      (drop (length (calls Sample.world))
         (calls (after_prelude Sample.world cs))) ∧
    (x = UnknownEventKind ∨
     (x = InvalidEventParams ∧
      ¬ ∃ evs, Forall2 (constructs (domain (agent Sample.world)))
                 (kinded [Sample.greet]) evs)).
Proof.
  apply (unknown_kind_rejected Sample.quiet
           (Sample.post_batch [Sample.greet; Sample.bogus; Sample.set_x])
           (Sample.post
              (JObj {["events" :=
                        JArr (JObj <$> [Sample.greet; Sample.bogus; Sample.set_x])]}))
           {["events" := JArr (JObj <$> [Sample.greet; Sample.bogus; Sample.set_x])]}
           "c1" Sample.world [Sample.greet] Sample.bogus [Sample.set_x]).
  - reflexivity.
  - reflexivity.
  - vm_compute. reflexivity.
  - vm_compute. reflexivity.
Defined.

Lemma parse_query_precedence_witness :
  parse Sample.echo Sample.fmt Sample.get_query_and_q "c1" Sample.world =
    handled Sample.echo Sample.fmt (JStr "hello") "c1"
      (after_params Sample.get_query_and_q Sample.world) ∧
  C_start_message_handling (JStr "hello") "c1"
    ∈ drop (length (calls Sample.world))
        (calls (parse Sample.echo Sample.fmt Sample.get_query_and_q "c1"
                  Sample.world).2).
Proof.
  assert (Hq : (<["q" := JStr "bye"]> {["query" := JStr "hello"]}
                 : gmap string json) !! "query" = Some (JStr "hello"))
    by (vm_compute; reflexivity).
  pose proof (parse_query_precedence Sample.echo Sample.fmt
                Sample.get_query_and_q "c1" Sample.world
                (<["q" := JStr "bye"]> {["query" := JStr "hello"]})) as H.
  rewrite Hq in H. apply H.
  left. split; reflexivity.
Defined.

(** ** Where the unamended statements fail *)

(** A batch with a mapping of unknown kind behind a mapping that lacks its
    parameters: the request fails with [InvalidEventParams], not with
    [UnknownEventKind]. *)
Lemma unknown_kind_behind_invalid_params :
  Exists (λ m, unknown_kind_mapping m = true) [Sample.nameless; Sample.bogus] ∧
  carries (Sample.post_batch [Sample.nameless; Sample.bogus])
    [Sample.nameless; Sample.bogus] ∧
  (append_events (Sample.post_batch [Sample.nameless; Sample.bogus])
     "c1" Sample.world).1 = Raise InvalidEventParams ∧
  (append_events (Sample.post_batch [Sample.nameless; Sample.bogus])
     "c1" Sample.world).1 ≠ Raise UnknownEventKind.
Proof.
  split; [apply Exists_cons_tl, Exists_cons_hd; vm_compute; reflexivity|].
  split; [reflexivity|].
  assert (H : (append_events (Sample.post_batch [Sample.nameless; Sample.bogus])
                 "c1" Sample.world).1 = Raise InvalidEventParams)
    by (vm_compute; reflexivity).
  split; [exact H|]. rewrite H. discriminate.
Qed.

(** A batch whose first mapping fails construction: the mapping after it
    still has its ["event"] entry when the function has raised. *)
Lemma event_key_survives_after_failure :
  result (convert_obj_2_tracker_events
            (JArr (JObj <$> [Sample.bogus; Sample.set_x])) Sample.domain)
    = Raise UnknownEventKind ∧
  Sample.set_x !! "event" = Some (JStr "set_slot") ∧
  batch_after (convert_obj_2_tracker_events
                 (JArr (JObj <$> [Sample.bogus; Sample.set_x])) Sample.domain)
    = JArr [JObj (delete "event" Sample.bogus); JObj Sample.set_x] ∧
  batch_after (convert_obj_2_tracker_events
                 (JArr (JObj <$> [Sample.bogus; Sample.set_x])) Sample.domain)
    ≠ JArr (JObj <$> (stripped <$> [Sample.bogus; Sample.set_x])).
Proof.
  split; [vm_compute; reflexivity|].
  split; [vm_compute; reflexivity|].
  assert (H : batch_after
                (convert_obj_2_tracker_events
                   (JArr (JObj <$> [Sample.bogus; Sample.set_x])) Sample.domain)
              = JArr [JObj (delete "event" Sample.bogus); JObj Sample.set_x])
    by (vm_compute; reflexivity).
  split; [exact H|]. rewrite H. intros Heq.
  assert (Hs : Sample.set_x = stripped Sample.set_x) by (simpl in Heq; congruence).
  apply (f_equal (λ m : gmap string json, m !! "event")) in Hs.
  vm_compute in Hs. discriminate Hs.
Qed.

(** A read of an id the store does not know: the handler makes no [save]
    call, but get-or-create has the store save the new empty tracker, so the
    persisted log of the id is there afterwards. *)
Lemma retrieve_unknown_id_persists :
  resident (store_of Sample.world) !! "c9" = None ∧
  persisted (store_of Sample.world) !! "c9" = None ∧
  (retrieve_tracker (Sample.post JNull) "c9" Sample.world).1
    = Return (json_dumps (current_state (new "c9") true)) ∧
  (Store.save (new "c9")
     (set_resident "c9" (new "c9") (store_of Sample.world))).2
    = store_of (retrieve_tracker (Sample.post JNull) "c9" Sample.world).2 ∧
  persisted (store_of (retrieve_tracker (Sample.post JNull) "c9"
                         Sample.world).2) !! "c9" = Some [] ∧
  persisted (store_of (retrieve_tracker (Sample.post JNull) "c9"
                         Sample.world).2)
    ≠ persisted (store_of Sample.world).
Proof.
  assert (Hp : persisted (store_of (retrieve_tracker (Sample.post JNull) "c9"
                                      Sample.world).2) !! "c9" = Some [])
    by (vm_compute; reflexivity).
  assert (Hq : persisted (store_of Sample.world) !! "c9" = None)
    by (vm_compute; reflexivity).
  split; [vm_compute; reflexivity|]. split; [exact Hq|].
  split; [reflexivity|]. split; [reflexivity|]. split; [exact Hp|].
  intros Heq. rewrite Heq, Hq in Hp. discriminate Hp.
Qed.

(** With neither ["query"] nor ["q"], [parse] answers 404 and leaves the
    agent alone. *)
Example parse_without_message :
  parse Sample.echo Sample.fmt (Sample.post (JObj {["text" := JStr "hello"]}))
    "c1" Sample.world =
  (Return (error_body "Invalid parse parameter specified"),
   {| agent := agent Sample.world;
      response := with_code 404 (json_header fresh_response);
      calls := [C_setHeader "Content-Type" "application/json"; C_json_loads;
                C_setResponseCode 404] |}).
Proof. reflexivity. Qed.

(** * Further properties of the module *)

(** ** The conversion on arbitrary lists *)

Lemma length_kinded batch : (length (kinded batch) ≤ length batch)%nat.
Proof.
  induction batch as [|m batch IH]; [done|].
  rewrite kinded_cons. destruct (kind_of_mapping m); simpl; lia.
Qed.

Lemma convert_loop_return_inv d l : ∀ acc evs,
  result (convert_loop d l acc) = Return evs →
  ∃ batch new,
    l = JObj <$> batch ∧ evs = acc ++ new ∧
    Forall2 (constructs d) (kinded batch) new.
Proof.
  induction l as [|e l IH]; intros acc evs H.
  - exists [], []. simpl in H. inversion H. by rewrite app_nil_r.
  - destruct e as [| | | | |m]; try discriminate H.
    destruct (kind_of_mapping m) as [km|] eqn:Hk.
    + rewrite (convert_loop_construct _ _ _ _ _ Hk) in H.
      destruct (from_parameters km.1 km.2 d) as [ev|x] eqn:Hc; [|discriminate H].
      destruct (IH _ _ H) as (batch & new & -> & -> & Hall).
      exists (m :: batch), (ev :: new). rewrite kinded_cons, Hk, <- app_assoc.
      split; [done|]. split; [done|]. by constructor.
    + rewrite (convert_loop_skip _ _ _ _ Hk) in H.
      destruct (IH _ _ H) as (batch & new & -> & -> & Hall).
      exists (m :: batch), new. by rewrite kinded_cons, Hk.
Qed.

(** X1. If [convert_obj_2_tracker_events] returns on a list, every element
    of the list was a dict, and the result holds one event for each mapping
    that carries a kind, in the order of the list; so it never holds more
    events than the list has elements. *)
Theorem convert_returns_only_for_mappings d l evs :
  result (convert_obj_2_tracker_events (JArr l) d) = Return evs →
  ∃ batch,
    l = JObj <$> batch ∧
    Forall2 (constructs d) (kinded batch) evs ∧
    (length evs ≤ length l)%nat.
Proof.
  intros H. destruct (convert_loop_return_inv d l [] evs H)
    as (batch & new & -> & -> & Hall).
  exists batch. split; [done|]. split; [done|].
  simpl. rewrite length_fmap, <- (Forall2_length _ _ _ Hall). apply length_kinded.
Qed.

(** X2. An element that is not a dict makes the conversion raise
    [AttributeError]; the mappings before it have been constructed and have
    lost their ["event"] entry by then, and the rest of the list is as it
    was. *)
Theorem convert_stops_at_non_dict d pre e post evs :
  is_dict e = false →
  Forall2 (constructs d) (kinded pre) evs →
  convert_obj_2_tracker_events (JArr ((JObj <$> pre) ++ e :: post)) d =
  {| batch_after := JArr ((JObj <$> (stripped <$> pre)) ++ e :: post);
     constructions := construction_call <$> kinded pre;
     result := Raise AttributeError |}.
Proof.
  intros He. unfold convert_obj_2_tracker_events.
  generalize (@nil Event). revert evs.
  induction pre as [|p pre IH]; intros evs acc H.
  - by destruct e.
  - rewrite !fmap_cons, <- !app_comm_cons. rewrite kinded_cons in H |- *.
    destruct (kind_of_mapping p) as [kp|] eqn:Hp.
    + inversion H as [|? ev ? evs' Hc Hrest]; subst.
      rewrite (convert_loop_construct _ _ _ _ _ Hp).
      unfold constructs in Hc. rewrite Hc. cbv zeta.
      specialize (IH _ (acc ++ [ev]) Hrest).
      destruct (convert_loop d _ _) as [ba cs r]. simpl in IH |- *.
      inversion IH; subst. by rewrite (stripped_kinded _ _ Hp).
    + rewrite (convert_loop_skip _ _ _ _ Hp). cbv zeta.
      specialize (IH _ acc H).
      destruct (convert_loop d _ _) as [ba cs r]. simpl in IH |- *.
      inversion IH; subst. by rewrite (stripped_unkinded _ Hp).
Qed.

Lemma kind_of_stripped m : kind_of_mapping (stripped m) = None.
Proof.
  unfold stripped. destruct (kind_of_mapping m) as [[etype ps]|] eqn:Hk; [|done].
  apply kind_of_mapping_not_null in Hk as (_ & _ & ->).
  unfold kind_of_mapping. by rewrite lookup_delete_eq.
Qed.

Lemma kinded_stripped batch : kinded (stripped <$> batch) = [].
Proof.
  induction batch as [|m batch IH]; [done|].
  by rewrite fmap_cons, kinded_cons, kind_of_stripped.
Qed.

Lemma stripped_stripped (batch : list (gmap string json)) :
  stripped <$> (stripped <$> batch) = stripped <$> batch.
Proof.
  rewrite <- list_fmap_compose. apply list_fmap_ext. intros _ m _. simpl.
  apply stripped_unkinded, kind_of_stripped.
Qed.

(** X3. The conversion uses its input up: once a batch has been converted,
    converting the same list again (whatever the domain) makes no
    construction, returns no event and changes nothing further. *)
Theorem convert_uses_up_batch d d' batch evs :
  Forall2 (constructs d) (kinded batch) evs →
  convert_obj_2_tracker_events
    (batch_after (convert_obj_2_tracker_events (JArr (JObj <$> batch)) d)) d' =
  {| batch_after :=
       batch_after (convert_obj_2_tracker_events (JArr (JObj <$> batch)) d);
     constructions := [];
     result := Return [] |}.
Proof.
  intros H. rewrite (convert_batch_returns _ _ _ H). simpl batch_after.
  rewrite (convert_batch_returns d' (stripped <$> batch) []).
  - by rewrite kinded_stripped, stripped_stripped.
  - rewrite kinded_stripped. constructor.
Qed.

(** ** More of [parse] *)

Lemma picked_message_unfold smh fmt request cid w m :
  has_params request m →
  parse smh fmt request cid w =
  match picked_message m with
  | Some message => handled smh fmt message cid (after_params request w)
  | None => not_found (after_params request w)
  end.
Proof.
  intros Hp. rewrite (parse_unfold _ _ _ _ _ _ Hp). unfold picked_message.
  by destruct (m !! "query"), (m !! "q").
Qed.

(** X4. In [parse], when there is no ["query"] parameter the ["q"]
    parameter is the message handed to the agent. *)
Theorem parse_q_fallback smh fmt request cid w m message :
  has_params request m →
  m !! "query" = None →
  m !! "q" = Some message →
  parse smh fmt request cid w =
    handled smh fmt message cid (after_params request w) ∧
  C_start_message_handling message cid
    ∈ drop (length (calls w)) (calls (parse smh fmt request cid w).2).
Proof.
  intros Hp Hq Hm. rewrite (parse_unfold _ _ _ _ _ _ Hp), Hq, Hm.
  split; [done|]. unfold handled.
  destruct (smh message cid _) as [[answer|e] a]; simpl;
    rewrite <- !app_assoc, drop_app_length;
    rewrite !elem_of_app; right; left; apply list_elem_of_here.
Qed.

(** X5. With request parameters that form a dict, [parse] never raises:
    it answers 404 when there is no message, 200 with the dump of the
    agent's answer when the message handling returns, and 500 with the
    formatted exception, which it also logs, when the message handling
    raises.  The agent is left as the message handling left it, and the
    content type is set in every case. *)
Theorem parse_always_answers smh fmt request cid w m :
  has_params request m →
  ∃ body,
    (parse smh fmt request cid w).1 = Return body ∧
    headers (response (parse smh fmt request cid w).2) !! "Content-Type"
      = Some "application/json" ∧
    match picked_message m with
    | None =>
        code (response (parse smh fmt request cid w).2) = 404%Z ∧
        agent (parse smh fmt request cid w).2 = agent w
    | Some message =>
        agent (parse smh fmt request cid w).2
          = (smh message cid (agent w)).2 ∧
        match (smh message cid (agent w)).1 with
        | Return answer =>
            code (response (parse smh fmt request cid w).2) = 200%Z ∧
            body = json_dumps answer
        | Raise e =>
            code (response (parse smh fmt request cid w).2) = 500%Z ∧
            body = error_body (fmt e) ∧
            C_logger_error e ∈ calls (parse smh fmt request cid w).2
        end
    end.
Proof.
  intros Hp. rewrite (picked_message_unfold _ _ _ _ _ _ Hp).
  destruct (picked_message m) as [message|].
  - unfold handled. simpl.
    destruct (smh message cid (agent w)) as [[answer|e] a]; simpl;
      eexists; (split; [reflexivity|]);
      (split; [by rewrite lookup_insert_eq|]); (split; [done|]).
    + done.
    + split; [done|]. split; [done|].
      apply elem_of_app. right.
      apply list_elem_of_further, list_elem_of_further, list_elem_of_here.
  - unfold not_found. simpl. eexists. split; [reflexivity|].
    split; [by rewrite lookup_insert_eq|done].
Qed.

Lemma read_params_document request meth j w :
  decode (method request) = Return meth →
  meth ≠ "GET" →
  content request = Document j →
  (_ ← setHeader "Content-Type" "application/json"; read_params request) w =
  (Return j, after_params request w).
Proof.
  intros Hm Hne Hc. unfold read_params, after_params, load_content. rewrite Hm.
  unfold mbind at 1 2. unfold M_bind, setHeader, lift.
  destruct (decide (meth = "GET")) as [?|_]; [done|].
  rewrite Hc. unfold mbind, M_bind, log, mret, M_ret. simpl.
  same_calls.
Qed.

(** X6. When the body of a non-GET [parse] request is JSON but not an
    object, the agent is never invoked: a list that holds the text
    ["query"] or ["q"] raises [TypeError] (at [pop]), a text that contains
    one of them raises [AttributeError], [None], a boolean or a number
    raises [TypeError] (at the membership test), and any other list or text
    is answered with 404. *)
Theorem parse_non_dict_body smh fmt request cid w meth j :
  decode (method request) = Return meth →
  meth ≠ "GET" →
  content request = Document j →
  is_dict j = false →
  parse smh fmt request cid w = non_dict_outcome j (after_params request w) ∧
  agent (parse smh fmt request cid w).2 = agent w ∧
  Forall (λ c, is_message_handling c = false)
    (drop (length (calls w)) (calls (parse smh fmt request cid w).2)).
Proof.
  intros Hm Hne Hc Hj.
  pose proof (read_params_document _ _ _ w Hm Hne Hc) as Hr.
  assert (Hrun : parse smh fmt request cid w
                 = non_dict_outcome j (after_params request w)).
  { unfold parse.
    rewrite (run_bind_assoc (setHeader _ _) (λ _, read_params request)).
    rewrite (run_bind_return _ _ _ _ _ Hr).
    unfold pick_message, contains, pop, lift, non_dict_outcome, not_found.
    unfold mbind, M_bind, mret, M_ret, setResponseCode.
    destruct j as [| | |s|l|]; try discriminate Hj; simpl; try reflexivity.
    - destruct (is_substring "query" s); simpl; [done|].
      by destruct (is_substring "q" s).
    - destruct (existsb (is_text "query") l); simpl; [done|].
      by destruct (existsb (is_text "q") l). }
  rewrite Hrun. clear Hrun Hr.
  assert (Hcalls : ∀ extra,
            Forall (λ c, is_message_handling c = false) extra →
            Forall (λ c, is_message_handling c = false)
              (drop (length (calls w))
                 (calls (after_params request w) ++ extra))).
  { intros extra He. unfold after_params. simpl.
    rewrite Hm. destruct (decide (meth = "GET")) as [?|_]; [done|].
    rewrite <- !app_assoc, drop_app_length. simpl. by repeat constructor. }
  assert (Hcalls0 : Forall (λ c, is_message_handling c = false)
                      (drop (length (calls w)) (calls (after_params request w)))).
  { rewrite <- (app_nil_r (calls (after_params request w))). by apply Hcalls. }
  unfold non_dict_outcome, not_found.
  destruct j as [| | |s|l|]; try discriminate Hj; simpl; try done.
  - destruct (_ || _); simpl; (split; [done|]; split; [done|]); [done|].
    apply Hcalls. by repeat constructor.
  - destruct (_ || _); simpl; (split; [done|]; split; [done|]); [done|].
    apply Hcalls. by repeat constructor.
Qed.

(** ** The arguments of a GET *)

Lemma args_params_good items : ∀ acc,
  forallb good_item items = true →
  ∃ m, args_params items acc = Return m.
Proof.
  induction items as [|[key value] items IH]; intros acc H; [by eexists|].
  simpl in H. apply andb_true_iff in H as [Hi H].
  destruct key as [k|]; [|discriminate Hi].
  destruct value as [|[v|] value]; try discriminate Hi.
  simpl. unfold mbind, Outcome_bind. simpl. by apply IH.
Qed.

Lemma args_params_bad items : ∀ acc,
  forallb good_item items = false →
  ∃ x, args_params items acc = Raise x ∧
       (x = IndexError ∨ x = UnicodeDecodeError).
Proof.
  induction items as [|[key value] items IH]; intros acc H; [discriminate H|].
  simpl in H. apply andb_false_iff in H.
  destruct key as [k|]; [|by eexists; split; [reflexivity|right]].
  destruct value as [|[v|] value];
    [by eexists; split; [reflexivity|left]| |by eexists; split; [reflexivity|right]].
  destruct H as [H|H]; [discriminate H|].
  simpl. unfold mbind, Outcome_bind. simpl. by apply IH.
Qed.

Lemma args_params_other items k : ∀ acc m,
  args_params items acc = Return m →
  Utf8 k ∉ items.*1 →
  m !! k = acc !! k.
Proof.
  induction items as [|[key value] items IH]; intros acc m H Hk.
  - by inversion H.
  - simpl in H. unfold mbind, Outcome_bind in H.
    destruct key as [k'|]; [|discriminate H].
    destruct value as [|[v|] value]; try discriminate H. simpl in H.
    rewrite fmap_cons, not_elem_of_cons in Hk. destruct Hk as [Hne Hk].
    rewrite (IH _ _ H Hk). apply lookup_insert_ne. simpl in Hne. congruence.
Qed.

Lemma args_params_first_value items k v rest : ∀ acc m,
  args_params items acc = Return m →
  NoDup items.*1 →
  (Utf8 k, Utf8 v :: rest) ∈ items →
  m !! k = Some (JStr v).
Proof.
  induction items as [|[key value] items IH]; intros acc m H Hnd Hin.
  - by apply elem_of_nil in Hin.
  - rewrite fmap_cons in Hnd. apply NoDup_cons in Hnd as [Hfresh Hnd].
    apply elem_of_cons in Hin as [Heq|Hin].
    + inversion Heq; subst. simpl in H. unfold mbind, Outcome_bind in H.
      simpl in H. rewrite (args_params_other _ _ _ _ H Hfresh).
      apply lookup_insert_eq.
    + simpl in H. unfold mbind, Outcome_bind in H.
      destruct key as [k'|]; [|discriminate H].
      destruct value as [|[v'|] value]; try discriminate H. simpl in H.
      by apply (IH _ _ H).
Qed.

(** X7. In a GET to [parse] whose arguments all decode, an argument given
    several values is taken at its first value, as text: the first value of
    ["query"] is the message handed to the agent. *)
Theorem parse_get_first_value smh fmt request cid w v rest :
  decode (method request) = Return "GET" →
  forallb good_item (args request) = true →
  NoDup (args request).*1 →
  (Utf8 "query", Utf8 v :: rest) ∈ args request →
  parse smh fmt request cid w =
    handled smh fmt (JStr v) cid (after_params request w).
Proof.
  intros Hm Hgood Hnd Hin.
  destruct (args_params_good _ ∅ Hgood) as [m Ha].
  rewrite (parse_unfold smh fmt request cid w m); [|left; by split].
  by rewrite (args_params_first_value _ _ _ _ _ _ Ha Hnd Hin).
Qed.

(** X8. A GET to [parse] with an argument whose name or first value does
    not decode, or that has no value at all, raises [UnicodeDecodeError] or
    [IndexError] as soon as the header is set; the agent is not reached. *)
Theorem parse_get_bad_argument smh fmt request cid w :
  decode (method request) = Return "GET" →
  forallb good_item (args request) = false →
  ∃ x, parse smh fmt request cid w = (Raise x, after_header w) ∧
       (x = IndexError ∨ x = UnicodeDecodeError).
Proof.
  intros Hm Hbad.
  destruct (args_params_bad _ ∅ Hbad) as (x & Ha & Hx).
  exists x. split; [|done].
  unfold parse, read_params. rewrite Hm.
  unfold mbind at 1 2 3. unfold M_bind, setHeader, lift.
  destruct (decide ("GET" = "GET")) as [_|?]; [|done].
  unfold mbind, Outcome_bind. by rewrite Ha.
Qed.

(** ** More of [continue_predicting] *)

(** X9. [continue_predicting] calls the agent's [continue_message_handling]
    once, with the conversation id, the ["executed_action"] entry of the
    body ([None] when absent) and the events converted from its ["events"]
    entry, in order.  It returns the dump of the agent's answer; if the
    agent raises, the handler raises the same exception (there is no
    [try] as in [parse]), and the response code is not set either way. *)
Theorem continue_predicting_hands_over cmh request cid w params evs :
  content request = Document (JObj params) →
  result (convert_obj_2_tracker_events
            (dict_get params "events" (JArr [])) (domain (agent w)))
    = Return evs →
  continue_predicting cmh request cid w =
  (match (cmh cid (dict_get params "executed_action" JNull) evs (agent w)).1 with
   | Return answer => Return (json_dumps answer)
   | Raise x => Raise x
   end,
   {| agent := (cmh cid (dict_get params "executed_action" JNull) evs (agent w)).2;
      response := json_header (response w);
      calls :=
        calls w
        ++ [C_setHeader "Content-Type" "application/json"; C_json_loads]
        ++ constructions (convert_obj_2_tracker_events
                            (dict_get params "events" (JArr []))
                            (domain (agent w)))
        ++ [C_continue_message_handling cid
              (dict_get params "executed_action" JNull) evs] |}).
Proof.
  intros Hc Hr. rewrite (continue_predicting_unfold _ _ _ _ _ Hc). cbv zeta.
  rewrite Hr. unfold mbind, M_bind, log, on_agent, mret, M_ret, after_prelude.
  simpl. destruct (cmh cid _ evs (agent w)) as [[answer|x] a]; simpl;
    same_calls.
Qed.

(** X10. A body without ["events"] and without ["executed_action"] is
    accepted: the agent is called with no events and [None] as the executed
    action, and no event is constructed. *)
Theorem continue_predicting_defaults cmh request cid w params :
  content request = Document (JObj params) →
  params !! "events" = None →
  params !! "executed_action" = None →
  continue_predicting cmh request cid w =
  (match (cmh cid JNull [] (agent w)).1 with
   | Return answer => Return (json_dumps answer)
   | Raise x => Raise x
   end,
   {| agent := (cmh cid JNull [] (agent w)).2;
      response := json_header (response w);
      calls :=
        calls w
        ++ [C_setHeader "Content-Type" "application/json"; C_json_loads;
            C_continue_message_handling cid JNull []] |}).
Proof.
  intros Hc He Ha.
  rewrite (continue_predicting_hands_over _ _ _ _ _ [] Hc);
    unfold dict_get; rewrite He, ?Ha; reflexivity.
Qed.

(** X11. A body that is JSON but not an object makes [continue_predicting]
    raise [AttributeError] right after loading it: no event is constructed
    and the agent is not called. *)
Theorem continue_predicting_non_dict cmh request cid w j :
  content request = Document j →
  is_dict j = false →
  continue_predicting cmh request cid w =
  (Raise AttributeError, after_prelude w []).
Proof.
  intros Hc Hj. unfold continue_predicting, load_content. rewrite Hc.
  unfold mbind at 1 2 3. unfold M_bind, setHeader, log, mret, M_ret, raise,
    after_prelude, json_header. simpl.
  by destruct j; try discriminate Hj; simpl; rewrite <- ?app_assoc.
Qed.

(** ** Bodies that do not load *)

(** X12. A body that is not UTF-8 makes [append_events], [update_tracker]
    and [continue_predicting] raise [UnicodeDecodeError] while the argument
    of [json.loads] is decoded, so with the header set and nothing else
    called; a body that decodes but is not JSON makes them raise
    [ValueError] in [json.loads].  Either way no event is constructed, no
    tracker fetched and the agent not called. *)
Theorem body_must_load cmh request cid w x :
  body_error (content request) = Some x →
  append_events request cid w = (Raise x, after_bad_body (content request) w) ∧
  update_tracker request cid w = (Raise x, after_bad_body (content request) w) ∧
  continue_predicting cmh request cid w
    = (Raise x, after_bad_body (content request) w) ∧
  agent (after_bad_body (content request) w) = agent w ∧
  calls (after_bad_body (content request) w) =
    calls w
    ++ C_setHeader "Content-Type" "application/json"
       :: match content request with
          | Undecodable => []
          | _ => [C_json_loads]
          end.
Proof.
  intros Hx. unfold append_events, update_tracker, continue_predicting,
    load_content.
  unfold mbind, M_bind, setHeader, log, raise, after_bad_body, after_header,
    after_prelude, json_header.
  destruct (content request); inversion Hx; subst; simpl;
    rewrite <- ?app_assoc; done.
Qed.

(** ** What the handlers do to the response *)

Lemma keeps_response_bind {A B} (c : M A) (k : A → M B) :
  keeps_response c → (∀ a, keeps_response (k a)) → keeps_response (c ≫= k).
Proof.
  intros Hc Hk w. unfold mbind, M_bind. specialize (Hc w).
  destruct (c w) as [[a|x] w1]; simpl in *; [|done].
  by rewrite Hk.
Qed.

Lemma keeps_response_update_all evs : ∀ t, keeps_response (update_all t evs).
Proof. intros t w. by rewrite update_all_run. Qed.

Lemma keeps_response_store {A} (op : TrackerStore → Outcome A * TrackerStore) :
  keeps_response (on_store op).
Proof. intros w. unfold on_store. by destruct (op _). Qed.

Lemma keeps_response_agent {A} (op : Agent → Outcome A * Agent) :
  keeps_response (on_agent op).
Proof. intros w. unfold on_agent. by destruct (op _). Qed.

Create HintDb keeps.
#[local] Hint Resolve keeps_response_update_all keeps_response_store
  keeps_response_agent : keeps.
#[local] Hint Extern 1 (keeps_response (_ ≫= _)) =>
  apply keeps_response_bind; [|intros ?; cbv beta] : keeps.
#[local] Hint Extern 1 (keeps_response (log _)) => (intros ?; reflexivity) : keeps.
#[local] Hint Extern 1 (keeps_response (mret _)) => (intros ?; reflexivity) : keeps.
#[local] Hint Extern 1 (keeps_response (raise _)) => (intros ?; reflexivity) : keeps.
#[local] Hint Extern 1 (keeps_response (lift _)) => (intros ?; reflexivity) : keeps.
#[local] Hint Extern 1 (keeps_response get_domain) => (intros ?; reflexivity) : keeps.

Lemma keeps_response_load request : keeps_response (load_content request).
Proof. unfold load_content. destruct (content request); auto with keeps. Qed.

Lemma keeps_response_convert j : keeps_response (convert j).
Proof. unfold convert. auto with keeps. Qed.

#[local] Hint Resolve keeps_response_load keeps_response_convert : keeps.

Lemma after_header_response {A} (rest : M A) w :
  keeps_response rest →
  response ((_ ← setHeader "Content-Type" "application/json"; rest) w).2
  = json_header (response w).
Proof. intros H. unfold mbind, M_bind, setHeader. by rewrite H. Qed.

Lemma keeps_response_headers {A} (c : M A) : keeps_response c → keeps_headers c.
Proof. intros H w. by rewrite H. Qed.

Lemma keeps_headers_bind {A B} (c : M A) (k : A → M B) :
  keeps_headers c → (∀ a, keeps_headers (k a)) → keeps_headers (c ≫= k).
Proof.
  intros Hc Hk w. unfold mbind, M_bind. specialize (Hc w).
  destruct (c w) as [[a|x] w1]; simpl in *; [|done].
  by rewrite Hk.
Qed.

Lemma keeps_headers_try {A} (body : M A) (handler : exn → M A) :
  keeps_headers body → (∀ e, keeps_headers (handler e)) →
  keeps_headers (try_except body handler).
Proof.
  intros Hb Hh w. unfold try_except. specialize (Hb w).
  destruct (body w) as [[a|x] w1]; simpl in *; [done|].
  by rewrite Hh.
Qed.

Lemma keeps_headers_code c : keeps_headers (setResponseCode c).
Proof. by intros w. Qed.

Lemma keeps_response_read_params request : keeps_response (read_params request).
Proof.
  unfold read_params. apply keeps_response_bind; [auto with keeps|].
  intros meth. destruct (decide (meth = "GET")); auto with keeps.
Qed.

Lemma keeps_response_pick j : keeps_response (pick_message j).
Proof.
  unfold pick_message. apply keeps_response_bind; [auto with keeps|].
  intros [|]; [auto 10 with keeps|].
  apply keeps_response_bind; [auto with keeps|].
  intros [|]; auto 10 with keeps.
Qed.

Lemma keeps_headers_parse_rest smh fmt request cid w :
  headers (response
    ((request_params ← read_params request;
      picked ← pick_message request_params;
      match picked with
      | None =>
          _ ← setResponseCode 404;
          mret (error_body "Invalid parse parameter specified")
      | Some message =>
          try_except
            (_ ← log [C_start_message_handling message cid];
             response ← on_agent (smh message cid);
             _ ← setResponseCode 200;
             mret (json_dumps response))
            (λ e,
             _ ← setResponseCode 500;
             _ ← log [C_logger_error e];
             mret (error_body (fmt e)))
      end) w).2)
  = headers (response w).
Proof.
  revert w. apply keeps_headers_bind;
    [apply keeps_response_headers, keeps_response_read_params|].
  intros j. apply keeps_headers_bind;
    [apply keeps_response_headers, keeps_response_pick|].
  assert (Hk : ∀ A (c : M A), keeps_response c → keeps_headers c)
    by (intros; by apply keeps_response_headers).
  intros [message|].
  - apply keeps_headers_try.
    + repeat (apply keeps_headers_bind; [|intros ?]);
        first [apply keeps_headers_code | apply Hk; auto with keeps].
    + intros e. repeat (apply keeps_headers_bind; [|intros ?]);
        first [apply keeps_headers_code | apply Hk; auto with keeps].
  - repeat (apply keeps_headers_bind; [|intros ?]);
      first [apply keeps_headers_code | apply Hk; auto with keeps].
Qed.

Lemma adds_calls_bind {A B} (c : M A) (k : A → M B) :
  adds_calls c → (∀ a, adds_calls (k a)) → adds_calls (c ≫= k).
Proof.
  intros Hc Hk w. unfold mbind, M_bind. destruct (Hc w) as [r1 H1].
  destruct (c w) as [[a|x] w1]; simpl in *; [|by exists r1].
  destruct (Hk a w1) as [r2 H2]. exists (r1 ++ r2).
  by rewrite H2, H1, app_assoc.
Qed.

Lemma adds_calls_quiet {A} (c : M A) :
  (∀ w, calls (c w).2 = calls w) → adds_calls c.
Proof. intros H w. exists []. by rewrite H, app_nil_r. Qed.

Lemma adds_calls_log cs : adds_calls (log cs).
Proof. intros w. by exists cs. Qed.

Lemma adds_calls_code c : adds_calls (setResponseCode c).
Proof. intros w. by eexists. Qed.

Lemma adds_calls_store {A} (op : TrackerStore → Outcome A * TrackerStore) :
  adds_calls (on_store op).
Proof. apply adds_calls_quiet. intros w. unfold on_store. by destruct (op _). Qed.

Lemma adds_calls_agent {A} (op : Agent → Outcome A * Agent) :
  adds_calls (on_agent op).
Proof. apply adds_calls_quiet. intros w. unfold on_agent. by destruct (op _). Qed.

Lemma adds_calls_update_all evs t : adds_calls (update_all t evs).
Proof. intros w. rewrite update_all_run. by eexists. Qed.

Lemma adds_calls_try {A} (body : M A) (handler : exn → M A) :
  adds_calls body → (∀ e, adds_calls (handler e)) →
  adds_calls (try_except body handler).
Proof.
  intros Hb Hh w. unfold try_except. destruct (Hb w) as [r1 H1].
  destruct (body w) as [[a|x] w1]; simpl in *; [by exists r1|].
  destruct (Hh x w1) as [r2 H2]. exists (r1 ++ r2).
  by rewrite H2, H1, app_assoc.
Qed.

Create HintDb adds.
#[local] Hint Resolve adds_calls_log adds_calls_code adds_calls_store
  adds_calls_agent adds_calls_update_all : adds.
#[local] Hint Extern 1 (adds_calls (_ ≫= _)) =>
  apply adds_calls_bind; [|intros ?; cbv beta] : adds.
#[local] Hint Extern 1 (adds_calls (try_except _ _)) =>
  apply adds_calls_try; [|intros ?; cbv beta] : adds.
#[local] Hint Extern 1 (adds_calls (mret _)) =>
  (apply adds_calls_quiet; intros ?; reflexivity) : adds.
#[local] Hint Extern 1 (adds_calls (raise _)) =>
  (apply adds_calls_quiet; intros ?; reflexivity) : adds.
#[local] Hint Extern 1 (adds_calls (lift _)) =>
  (apply adds_calls_quiet; intros ?; reflexivity) : adds.
#[local] Hint Extern 1 (adds_calls get_domain) =>
  (apply adds_calls_quiet; intros ?; reflexivity) : adds.

Lemma adds_calls_load request : adds_calls (load_content request).
Proof. unfold load_content. destruct (content request); auto with adds. Qed.

Lemma adds_calls_convert j : adds_calls (convert j).
Proof. unfold convert. auto with adds. Qed.

Lemma adds_calls_read_params request : adds_calls (read_params request).
Proof.
  unfold read_params. apply adds_calls_bind; [auto with adds|].
  intros meth. destruct (decide (meth = "GET")); auto using adds_calls_load with adds.
Qed.

Lemma adds_calls_pick j : adds_calls (pick_message j).
Proof.
  unfold pick_message. apply adds_calls_bind; [auto with adds|].
  intros [|]; [auto 10 with adds|].
  apply adds_calls_bind; [auto with adds|].
  intros [|]; auto 10 with adds.
Qed.

#[local] Hint Resolve adds_calls_load adds_calls_convert adds_calls_read_params
  adds_calls_pick : adds.

Lemma header_first_intro (rest : M Body) w :
  adds_calls rest →
  header_first w ((_ ← setHeader "Content-Type" "application/json"; rest) w).
Proof.
  intros H. unfold header_first, mbind, M_bind, setHeader.
  destruct (H {| agent := agent w;
                 response := {| headers := <["Content-Type" := "application/json"]>
                                             (headers (response w));
                                code := code (response w) |};
                 calls := calls w ++ [C_setHeader "Content-Type" "application/json"] |})
    as [r Hr].
  exists r. rewrite Hr. simpl. by rewrite <- app_assoc.
Qed.

(** X13. Whenever the body of a handler runs (the function that the
    [check_cors] decorator wraps), every handler except [hello] makes the
    [setHeader] of the content type [application/json] its first call, so
    the header is set however the body ends, also when it raises.  The
    bodies of the tracker endpoints, of [continue_predicting] and of
    [version] change nothing else of the response, in particular no
    response code; the body of [parse] changes the response code at most;
    the body of [hello] makes no call and leaves the world as it is. *)
Theorem handlers_set_content_type cmh smh fmt v request cid w :
  (header_first w (append_events request cid w) ∧
   response (append_events request cid w).2 = json_header (response w)) ∧
  (header_first w (update_tracker request cid w) ∧
   response (update_tracker request cid w).2 = json_header (response w)) ∧
  (header_first w (retrieve_tracker request cid w) ∧
   response (retrieve_tracker request cid w).2 = json_header (response w)) ∧
  (header_first w (continue_predicting cmh request cid w) ∧
   response (continue_predicting cmh request cid w).2
     = json_header (response w)) ∧
  (header_first w (version v request w) ∧
   response (version v request w).2 = json_header (response w)) ∧
  (header_first w (parse smh fmt request cid w) ∧
   headers (response (parse smh fmt request cid w).2)
     = headers (json_header (response w))) ∧
  hello v request w = (Return (Text ("hello from Rasa Core: " +:+ v)), w).
Proof.
  split; [split|].
  { apply header_first_intro.
    unfold get_or_create_tracker, save, tracker_current_state.
    auto 20 with adds. }
  { apply after_header_response.
    unfold get_or_create_tracker, save, tracker_current_state.
    auto 20 with keeps. }
  split; [split|].
  { apply header_first_intro.
    unfold create_tracker, save, tracker_current_state.
    auto 20 with adds. }
  { apply after_header_response.
    unfold create_tracker, save, tracker_current_state.
    auto 20 with keeps. }
  split; [split|].
  { apply header_first_intro.
    unfold get_or_create_tracker, tracker_current_state.
    auto 20 with adds. }
  { apply after_header_response.
    unfold get_or_create_tracker, tracker_current_state.
    auto 20 with keeps. }
  split; [split|].
  { apply header_first_intro.
    apply adds_calls_bind; [auto with adds|]. intros j.
    destruct j; cbv beta iota zeta; auto 20 with adds. }
  { apply after_header_response.
    apply keeps_response_bind; [auto with keeps|]. intros j.
    destruct j; cbv beta iota zeta; auto 20 with keeps. }
  split; [split|].
  { apply header_first_intro. auto with adds. }
  { reflexivity. }
  split; [split|reflexivity].
  { apply header_first_intro.
    apply adds_calls_bind; [auto with adds|]. intros j.
    apply adds_calls_bind; [auto with adds|]. intros [message|];
      auto 20 with adds. }
  { unfold parse, mbind at 1, M_bind at 1, setHeader.
    by rewrite keeps_headers_parse_rest. }
Qed.

Example refused_body_has_header :
  header_first Sample.world
    (append_events (Sample.post_batch [Sample.bogus]) "c1" Sample.world) ∧
  (append_events (Sample.post_batch [Sample.bogus]) "c1" Sample.world).1
    = Raise UnknownEventKind ∧
  headers (response (append_events (Sample.post_batch [Sample.bogus]) "c1"
                       Sample.world).2) !! "Content-Type"
    = Some "application/json".
Proof.
  split; [eexists; vm_compute; reflexivity|].
  split; vm_compute; reflexivity.
Qed.

(** ** Requests one after the other *)

Lemma retrieve_resident request cid w t :
  resident (store_of w) !! cid = Some t →
  sender_id t = cid →
  retrieve_tracker request cid w =
  (Return (json_dumps (current_state t true)),
   {| agent := agent w;
      response := json_header (response w);
      calls := calls w ++ [C_setHeader "Content-Type" "application/json";
                           C_get_or_create_tracker cid;
                           C_current_state cid true] |}).
Proof.
  intros Hr Hid. unfold retrieve_tracker.
  unfold mbind at 1. unfold M_bind, setHeader.
  erewrite run_bind_return.
  2:{ rewrite get_or_create_tracker_run. unfold Store.get_or_create_tracker.
      unfold store_of in *. simpl. rewrite Hr. reflexivity. }
  unfold tracker_current_state, mbind, M_bind, log, mret, M_ret. simpl.
  rewrite Hid. destruct w as [[dm s] r c]. simpl. f_equal. f_equal.
  same_calls.
Qed.

Lemma resident_after_save w1 t0 evs incl :
  resident (store_of w1) !! sender_id t0 = Some t0 →
  resident (store_of (after_save w1 t0 evs incl)) !! sender_id t0
  = Some (foldl update t0 evs).
Proof.
  intros H. unfold after_save, store_of. simpl.
  rewrite resident_after_updates; [|done]. apply lookup_insert_eq.
Qed.

(** X14. A successful [PUT .../tracker] followed by a [GET .../tracker] of
    the same id: the GET answers with the very body the PUT returned (the
    snapshot holding exactly the events of the batch) and leaves the agent,
    so every tracker and persisted log, as the PUT left it. *)
Theorem put_then_get request request' cid w j evs :
  content request = Document j →
  result (convert_obj_2_tracker_events j (domain (agent w))) = Return evs →
  backend_up (store_of w) = true →
  (update_tracker request cid w).1 =
    Return (json_dumps (current_state (foldl update (new cid) evs) true)) ∧
  (retrieve_tracker request' cid (update_tracker request cid w).2).1 =
    (update_tracker request cid w).1 ∧
  agent (retrieve_tracker request' cid (update_tracker request cid w).2).2 =
    agent (update_tracker request cid w).2.
Proof.
  intros Hc Hr Hb. rewrite (update_tracker_run _ _ _ _ _ Hc Hr). cbv zeta.
  rewrite Hb. unfold fst, snd, rehydrate.
  split; [done|].
  rewrite (retrieve_resident request' cid _ (foldl update (new cid) evs)).
  - done.
  - apply (resident_after_save _ (new cid)). unfold after_fetch, store_of.
    simpl. apply lookup_insert_eq.
  - apply sender_id_updates.
Qed.

(** X15. Two successful [POST .../tracker/events] to the same id add up:
    after the second, the tracker and its persisted log hold the events of
    the first batch and then those of the second behind what was there, and
    the second answer is the state after all of them. *)
Theorem appends_accumulate request1 request2 cid w j1 j2 evs1 evs2 t0 s1 :
  content request1 = Document j1 →
  result (convert_obj_2_tracker_events j1 (domain (agent w))) = Return evs1 →
  content request2 = Document j2 →
  result (convert_obj_2_tracker_events j2 (domain (agent w))) = Return evs2 →
  store_ok (store_of w) →
  Store.get_or_create_tracker cid (store_of w) = (Return t0, s1) →
  backend_up (store_of w) = true →
  ∃ w2,
    append_events request2 cid (append_events request1 cid w).2 =
      (Return (json_dumps (current_state (foldl update t0 (evs1 ++ evs2))
                             default_should_include_events)), w2) ∧
    resident (store_of w2) !! cid = Some (foldl update t0 (evs1 ++ evs2)) ∧
    persisted (store_of w2) !! cid = Some (events t0 ++ evs1 ++ evs2).
Proof.
  intros Hc1 Hr1 Hc2 Hr2 Hok Hg Hb.
  destruct (get_or_create_tracker_returns _ _ _ _ Hok Hg)
    as (Hid & Hres & Hok1 & Hb1 & _).
  subst cid.
  rewrite (append_events_returns _ _ _ _ _ _ _ Hc1 Hr1 Hg); [|congruence].
  unfold snd.
  set (w1 := after_save _ t0 evs1 _).
  assert (Hres1 : resident (store_of w1) !! sender_id t0
                  = Some (foldl update t0 evs1)).
  { subst w1. apply resident_after_save. by unfold after_fetch, store_of. }
  assert (Hb2 : backend_up (store_of w1) = true).
  { subst w1. unfold after_save, after_fetch, store_of. simpl.
    rewrite backend_after_updates. congruence. }
  assert (Hg1 : Store.get_or_create_tracker (sender_id t0) (store_of w1)
                = (Return (foldl update t0 evs1), store_of w1)).
  { unfold Store.get_or_create_tracker. by rewrite Hres1. }
  assert (Hd : domain (agent w1) = domain (agent w)) by done.
  rewrite foldl_app.
  eexists. split.
  { apply (append_events_returns request2 _ w1 j2 evs2
             (foldl update t0 evs1) (store_of w1) Hc2);
      [by rewrite Hd|exact Hg1|exact Hb2]. }
  split.
  - pose proof (resident_after_save
                  (after_fetch w1 (constructions
                     (convert_obj_2_tracker_events j2 (domain (agent w1))))
                     (C_get_or_create_tracker (sender_id t0)) (store_of w1))
                  (foldl update t0 evs1) evs2
                  default_should_include_events) as H.
    rewrite sender_id_updates in H. apply H.
    unfold after_fetch, store_of. simpl. exact Hres1.
  - unfold after_save, store_of. simpl.
    rewrite sender_id_updates, lookup_insert_eq, !events_updates.
    by rewrite <- app_assoc.
Qed.

(** X16. A successful [POST .../tracker/events] followed by a
    [GET .../tracker] of the same id: the snapshot the GET answers with
    lists the events the tracker had before, followed by the events of the
    batch in their order, and the GET changes nothing of the agent. *)
Theorem post_then_get request request' cid w j evs t0 s1 :
  content request = Document j →
  result (convert_obj_2_tracker_events j (domain (agent w))) = Return evs →
  store_ok (store_of w) →
  Store.get_or_create_tracker cid (store_of w) = (Return t0, s1) →
  backend_up (store_of w) = true →
  ∃ snapshot,
    (retrieve_tracker request' cid (append_events request cid w).2).1 =
      Return (json_dumps (JObj snapshot)) ∧
    snapshot !! "events" = Some (JArr (as_dict <$> (events t0 ++ evs))) ∧
    agent (retrieve_tracker request' cid (append_events request cid w).2).2 =
      agent (append_events request cid w).2.
Proof.
  intros Hc Hr Hok Hg Hb.
  destruct (get_or_create_tracker_returns _ _ _ _ Hok Hg)
    as (Hid & Hres & Hok1 & Hb1 & _).
  subst cid.
  rewrite (append_events_returns _ _ _ _ _ _ _ Hc Hr Hg); [|congruence].
  unfold snd.
  rewrite (retrieve_resident request' _ _ (foldl update t0 evs)).
  - eexists. split; [reflexivity|]. split; [|done].
    by rewrite lookup_insert_eq, events_updates.
  - apply resident_after_save. by unfold after_fetch, store_of.
  - apply sender_id_updates.
Qed.

(** X17. [append_events] applies the events to the tracker before it calls
    [save] and does not undo them: when the tracker of the id is resident
    and [save] raises, the request fails with that error and the persisted
    log is as before, but the resident tracker already holds the events of
    the batch; no snapshot is taken. *)
Theorem append_events_save_fails request cid w j evs t0 :
  content request = Document j →
  result (convert_obj_2_tracker_events j (domain (agent w))) = Return evs →
  resident (store_of w) !! cid = Some t0 →
  sender_id t0 = cid →
  backend_up (store_of w) = false →
  ∃ w',
    append_events request cid w = (Raise PersistenceError, w') ∧
    calls w' =
      calls w
      ++ [C_setHeader "Content-Type" "application/json"; C_json_loads]
      ++ constructions (convert_obj_2_tracker_events j (domain (agent w)))
      ++ [C_get_or_create_tracker cid]
      ++ (C_update cid <$> evs)
      ++ [C_save cid] ∧
    resident (store_of w') !! cid = Some (foldl update t0 evs) ∧
    persisted (store_of w') = persisted (store_of w).
Proof.
  intros Hc Hr Hres Hid Hb. subst cid.
  rewrite (append_events_unfold _ _ _ _ Hc). cbv zeta. rewrite Hr.
  erewrite apply_and_save_run.
  2:{ rewrite get_or_create_tracker_run. unfold Store.get_or_create_tracker.
      unfold store_of, after_prelude in *. simpl. rewrite Hres. reflexivity. }
  unfold store_of in *. simpl. rewrite Hb.
  eexists. split; [reflexivity|]. simpl.
  split; [same_calls|].
  split; [|by rewrite persisted_after_updates].
  rewrite resident_after_updates; [|done]. apply lookup_insert_eq.
Qed.

Lemma with_store_same (a : Agent) s :
  s = tracker_store a → with_store s a = a.
Proof. intros ->. by destruct a. Qed.

Lemma with_store_twice (a : Agent) s s' :
  with_store s (with_store s' a) = with_store s a.
Proof. reflexivity. Qed.

Lemma store_eq (s s' : TrackerStore) :
  resident s = resident s' → persisted s = persisted s' →
  backend_up s = backend_up s' → s = s'.
Proof. destruct s, s'. simpl. by intros -> -> ->. Qed.

(** X18. [PUT .../tracker] is idempotent: putting the same batch a second
    time returns the same body and leaves the agent, so every tracker and
    persisted log, as the first request left it. *)
Theorem put_twice request request' cid w j evs :
  content request = Document j →
  content request' = Document j →
  result (convert_obj_2_tracker_events j (domain (agent w))) = Return evs →
  backend_up (store_of w) = true →
  (update_tracker request' cid (update_tracker request cid w).2).1 =
    (update_tracker request cid w).1 ∧
  agent (update_tracker request' cid (update_tracker request cid w).2).2 =
    agent (update_tracker request cid w).2.
Proof.
  intros Hc Hc' Hr Hb. rewrite (update_tracker_run _ _ _ _ _ Hc Hr).
  cbv zeta. rewrite Hb. cbn [fst snd].
  set (w1 := after_save _ (new cid) evs true).
  assert (Hd : domain (agent w1) = domain (agent w)) by done.
  assert (Hb1 : backend_up (store_of w1) = true).
  { subst w1. unfold after_save, after_fetch, store_of. simpl.
    rewrite backend_after_updates. exact Hb. }
  rewrite (update_tracker_run request' cid w1 j evs Hc'); [|by rewrite Hd].
  cbv zeta. rewrite Hb1. cbn [fst snd]. split; [done|].
  unfold after_save at 1. unfold after_fetch. cbn [agent].
  rewrite with_store_twice. apply with_store_same.
  apply store_eq; unfold store_of; cbn [agent tracker_store with_store
    set_persisted set_resident resident persisted backend_up].
  - rewrite (resident_after_updates evs (new cid)); cbn [resident sender_id new];
      [|apply lookup_insert_eq].
    subst w1. unfold after_save, after_fetch, store_of. simpl.
    rewrite (resident_after_updates evs (new cid)); simpl;
      [|apply lookup_insert_eq].
    by rewrite !insert_insert_eq.
  - rewrite persisted_after_updates. cbn [persisted sender_id new events].
    subst w1. unfold after_save, after_fetch, store_of. simpl.
    by rewrite insert_insert_eq.
  - rewrite backend_after_updates. cbn [backend_up].
    subst w1. unfold after_save, after_fetch, store_of. simpl.
    by rewrite !backend_after_updates.
Qed.

(** ** The further properties at concrete requests *)

Lemma convert_returns_only_for_mappings_witness :
  ∃ batch,
    JObj <$> [Sample.greet; Sample.no_kind; Sample.set_x] = JObj <$> batch ∧
    Forall2 (constructs Sample.domain) (kinded batch)
      [ActionExecuted "utter_greet"; SlotSet "x" (JNum 2)] ∧
    (length [ActionExecuted "utter_greet"; SlotSet "x" (JNum 2)]
     ≤ length (JObj <$> [Sample.greet; Sample.no_kind; Sample.set_x]))%nat.
Proof.
  apply (convert_returns_only_for_mappings Sample.domain
           (JObj <$> [Sample.greet; Sample.no_kind; Sample.set_x])).
  vm_compute. reflexivity.
Defined.

Lemma convert_stops_at_non_dict_witness :
  result (convert_obj_2_tracker_events
            (JArr ((JObj <$> [Sample.greet]) ++ JNum 5 :: [JObj Sample.set_x]))
            Sample.domain)
  = Raise AttributeError.
Proof.
  assert (H : Forall2 (constructs Sample.domain) (kinded [Sample.greet])
                 [ActionExecuted "utter_greet"])
    by (repeat constructor; vm_compute; reflexivity).
  rewrite (convert_stops_at_non_dict Sample.domain [Sample.greet] (JNum 5)
             [JObj Sample.set_x] [ActionExecuted "utter_greet"] eq_refl H).
  reflexivity.
Defined.

Lemma convert_uses_up_batch_witness :
  result (convert_obj_2_tracker_events
            (batch_after
               (convert_obj_2_tracker_events
                  (JArr (JObj <$> [Sample.greet; Sample.set_x])) Sample.domain))
            Sample.domain)
  = Return [].
Proof.
  assert (H : Forall2 (constructs Sample.domain)
                 (kinded [Sample.greet; Sample.set_x])
                 [ActionExecuted "utter_greet"; SlotSet "x" (JNum 2)])
    by (repeat constructor; vm_compute; reflexivity).
  rewrite (convert_uses_up_batch Sample.domain Sample.domain
             [Sample.greet; Sample.set_x]
             [ActionExecuted "utter_greet"; SlotSet "x" (JNum 2)] H).
  reflexivity.
Defined.

Lemma post_has_params (m : gmap string json) :
  has_params (Sample.post (JObj m)) m.
Proof. right. exists "POST". by repeat split. Qed.

Lemma parse_q_fallback_witness :
  parse Sample.echo Sample.fmt (Sample.post (JObj {["q" := JStr "bye"]}))
    "c1" Sample.world =
  handled Sample.echo Sample.fmt (JStr "bye") "c1"
    (after_params (Sample.post (JObj {["q" := JStr "bye"]})) Sample.world).
Proof.
  apply (parse_q_fallback Sample.echo Sample.fmt
           (Sample.post (JObj {["q" := JStr "bye"]})) "c1" Sample.world
           {["q" := JStr "bye"]} (JStr "bye")).
  - apply post_has_params.
  - vm_compute. reflexivity.
  - vm_compute. reflexivity.
Defined.

Lemma parse_always_answers_witness :
  ∃ body,
    (parse Cases.failing Sample.fmt (Sample.post (JObj {["q" := JStr "bye"]}))
       "c1" Sample.world).1 = Return body.
Proof.
  destruct (parse_always_answers Cases.failing Sample.fmt
              (Sample.post (JObj {["q" := JStr "bye"]})) "c1" Sample.world
              {["q" := JStr "bye"]} (post_has_params _)) as (body & H & _).
  exists body. exact H.
Defined.

Lemma parse_non_dict_body_witness :
  parse Sample.echo Sample.fmt (Sample.post (JArr [JStr "query"])) "c1"
    Sample.world =
  non_dict_outcome (JArr [JStr "query"])
    (after_params (Sample.post (JArr [JStr "query"])) Sample.world).
Proof.
  apply (parse_non_dict_body Sample.echo Sample.fmt
           (Sample.post (JArr [JStr "query"])) "c1" Sample.world "POST"
           (JArr [JStr "query"])).
  - reflexivity.
  - discriminate.
  - reflexivity.
  - reflexivity.
Defined.

Lemma parse_get_first_value_witness :
  parse Sample.echo Sample.fmt Cases.get_query_twice "c1" Sample.world =
  handled Sample.echo Sample.fmt (JStr "first") "c1"
    (after_params Cases.get_query_twice Sample.world).
Proof.
  apply (parse_get_first_value Sample.echo Sample.fmt Cases.get_query_twice
           "c1" Sample.world "first" [Utf8 "second"]).
  - reflexivity.
  - reflexivity.
  - apply NoDup_singleton.
  - apply list_elem_of_here.
Defined.

Lemma parse_get_bad_argument_witness :
  ∃ x, parse Sample.echo Sample.fmt Cases.get_empty_value "c1" Sample.world
       = (Raise x, after_header Sample.world) ∧
       (x = IndexError ∨ x = UnicodeDecodeError).
Proof.
  apply (parse_get_bad_argument Sample.echo Sample.fmt Cases.get_empty_value
           "c1" Sample.world); reflexivity.
Defined.

Lemma continue_predicting_hands_over_witness :
  (continue_predicting Sample.quiet
     (Sample.post (JObj {["events" := JArr [JObj Sample.greet]]}))
     "c1" Sample.world).1 = Return (json_dumps JNull).
Proof.
  assert (H : result (convert_obj_2_tracker_events
                        (dict_get {["events" := JArr [JObj Sample.greet]]}
                           "events" (JArr []))
                        (domain (agent Sample.world)))
               = Return [ActionExecuted "utter_greet"])
    by (vm_compute; reflexivity).
  rewrite (continue_predicting_hands_over Sample.quiet
             (Sample.post (JObj {["events" := JArr [JObj Sample.greet]]}))
             "c1" Sample.world
             {["events" := JArr [JObj Sample.greet]]}
             [ActionExecuted "utter_greet"] eq_refl H).
  reflexivity.
Defined.

Lemma continue_predicting_defaults_witness :
  (continue_predicting Sample.quiet (Sample.post (JObj ∅)) "c1"
     Sample.world).1 = Return (json_dumps JNull).
Proof.
  rewrite (continue_predicting_defaults Sample.quiet (Sample.post (JObj ∅))
             "c1" Sample.world ∅ eq_refl (lookup_empty _) (lookup_empty _)).
  reflexivity.
Defined.

Lemma continue_predicting_non_dict_witness :
  continue_predicting Sample.quiet (Sample.post (JArr [])) "c1" Sample.world =
  (Raise AttributeError, after_prelude Sample.world []).
Proof.
  apply (continue_predicting_non_dict Sample.quiet (Sample.post (JArr []))
           "c1" Sample.world (JArr [])); reflexivity.
Defined.

Lemma body_must_load_witness :
  append_events Cases.undecodable "c1" Sample.world =
    (Raise UnicodeDecodeError, after_header Sample.world) ∧
  calls (after_header Sample.world) =
    [C_setHeader "Content-Type" "application/json"] ∧
  continue_predicting Sample.quiet Cases.malformed "c1" Sample.world =
    (Raise ValueError, after_prelude Sample.world []) ∧
  calls (after_prelude Sample.world []) =
    [C_setHeader "Content-Type" "application/json"; C_json_loads].
Proof.
  destruct (body_must_load Sample.quiet Cases.undecodable "c1" Sample.world
              UnicodeDecodeError eq_refl) as (Ha & _ & _ & _ & Hcalls).
  destruct (body_must_load Sample.quiet Cases.malformed "c1" Sample.world
              ValueError eq_refl) as (_ & _ & Hc & _ & Hcalls').
  split; [exact Ha|]. split; [exact Hcalls|]. split; [exact Hc|exact Hcalls'].
Defined.

Lemma put_then_get_witness :
  (retrieve_tracker (Sample.post JNull) "c1"
     (update_tracker (Sample.post_batch [Sample.set_x]) "c1" Sample.world).2).1
  = (update_tracker (Sample.post_batch [Sample.set_x]) "c1" Sample.world).1.
Proof.
  apply (put_then_get (Sample.post_batch [Sample.set_x]) (Sample.post JNull)
           "c1" Sample.world (JArr (JObj <$> [Sample.set_x]))
           [SlotSet "x" (JNum 2)]).
  - reflexivity.
  - vm_compute. reflexivity.
  - reflexivity.
Defined.

Lemma appends_accumulate_witness :
  ∃ w2,
    append_events (Sample.post_batch [Sample.set_x]) "c1"
      (append_events (Sample.post_batch [Sample.greet]) "c1" Sample.world).2 =
      (Return (json_dumps
                 (current_state
                    (foldl update (rehydrate "c1" [ActionExecuted "utter_greet"])
                       ([ActionExecuted "utter_greet"] ++ [SlotSet "x" (JNum 2)]))
                    default_should_include_events)), w2) ∧
    resident (store_of w2) !! "c1" =
      Some (foldl update (rehydrate "c1" [ActionExecuted "utter_greet"])
              ([ActionExecuted "utter_greet"] ++ [SlotSet "x" (JNum 2)])) ∧
    persisted (store_of w2) !! "c1" =
      Some (events (rehydrate "c1" [ActionExecuted "utter_greet"])
            ++ [ActionExecuted "utter_greet"] ++ [SlotSet "x" (JNum 2)]).
Proof.
  apply (appends_accumulate (Sample.post_batch [Sample.greet])
           (Sample.post_batch [Sample.set_x]) "c1" Sample.world
           (JArr (JObj <$> [Sample.greet])) (JArr (JObj <$> [Sample.set_x]))
           [ActionExecuted "utter_greet"] [SlotSet "x" (JNum 2)]
           (rehydrate "c1" [ActionExecuted "utter_greet"])
           (set_resident "c1" (rehydrate "c1" [ActionExecuted "utter_greet"])
              Sample.store)).
  - reflexivity.
  - vm_compute. reflexivity.
  - reflexivity.
  - vm_compute. reflexivity.
  - exact sample_store_ok.
  - vm_compute. reflexivity.
  - reflexivity.
Defined.

Lemma post_then_get_witness :
  ∃ snapshot,
    (retrieve_tracker (Sample.post JNull) "c1"
       (append_events (Sample.post_batch [Sample.set_x]) "c1" Sample.world).2).1
      = Return (json_dumps (JObj snapshot)) ∧
    snapshot !! "events" =
      Some (JArr (as_dict
                    <$> (events (rehydrate "c1" [ActionExecuted "utter_greet"])
                         ++ [SlotSet "x" (JNum 2)]))) ∧
    agent (retrieve_tracker (Sample.post JNull) "c1"
             (append_events (Sample.post_batch [Sample.set_x]) "c1"
                Sample.world).2).2
      = agent (append_events (Sample.post_batch [Sample.set_x]) "c1"
                 Sample.world).2.
Proof.
  apply (post_then_get (Sample.post_batch [Sample.set_x]) (Sample.post JNull)
           "c1" Sample.world (JArr (JObj <$> [Sample.set_x]))
           [SlotSet "x" (JNum 2)]
           (rehydrate "c1" [ActionExecuted "utter_greet"])
           (set_resident "c1" (rehydrate "c1" [ActionExecuted "utter_greet"])
              Sample.store)).
  - reflexivity.
  - vm_compute. reflexivity.
  - exact sample_store_ok.
  - vm_compute. reflexivity.
  - reflexivity.
Defined.

Lemma append_events_save_fails_witness :
  ∃ w',
    append_events (Sample.post_batch [Sample.set_x]) "c1" Cases.offline_world
      = (Raise PersistenceError, w') ∧
    resident (store_of w') !! "c1" =
      Some (foldl update (rehydrate "c1" [ActionExecuted "utter_greet"])
              [SlotSet "x" (JNum 2)]) ∧
    persisted (store_of w') = persisted (store_of Cases.offline_world).
Proof.
  destruct (append_events_save_fails (Sample.post_batch [Sample.set_x]) "c1"
              Cases.offline_world (JArr (JObj <$> [Sample.set_x]))
              [SlotSet "x" (JNum 2)]
              (rehydrate "c1" [ActionExecuted "utter_greet"]))
    as (w' & Hrun & _ & Hres & Hp).
  - reflexivity.
  - vm_compute. reflexivity.
  - vm_compute. reflexivity.
  - reflexivity.
  - reflexivity.
  - exists w'. split; [exact Hrun|]. split; [exact Hres|exact Hp].
Defined.

Lemma put_twice_witness :
  (update_tracker (Sample.post_batch [Sample.set_x]) "c1"
     (update_tracker (Sample.post_batch [Sample.set_x]) "c1" Sample.world).2).1
  = (update_tracker (Sample.post_batch [Sample.set_x]) "c1" Sample.world).1.
Proof.
  apply (put_twice (Sample.post_batch [Sample.set_x])
           (Sample.post_batch [Sample.set_x]) "c1" Sample.world
           (JArr (JObj <$> [Sample.set_x])) [SlotSet "x" (JNum 2)]).
  - reflexivity.
  - reflexivity.
  - vm_compute. reflexivity.
  - reflexivity.
Defined.

Lemma busy_store_ok : store_ok (store_of Cases.busy_world).
Proof.
  apply map_Forall_insert_2; [reflexivity|].
  apply map_Forall_singleton. reflexivity.
Qed.

Lemma tracker_endpoints_keep_other_ids_witness :
  resident (store_of Cases.busy_world) !! "c2"
    = Some (rehydrate "c2" [SlotSet "x" (JNum 1)]) ∧
  persisted (store_of Cases.busy_world) !! "c3" = Some [Restarted] ∧
  (append_events (Sample.post_batch [Sample.set_x]) "c1" Cases.busy_world).1
    = Return (json_dumps
                (current_state
                   (foldl update (rehydrate "c1" [ActionExecuted "utter_greet"])
                      [SlotSet "x" (JNum 2)])
                   default_should_include_events)) ∧
  same_elsewhere "c1" (store_of Cases.busy_world)
    (store_of (append_events (Sample.post_batch [Sample.set_x]) "c1"
                 Cases.busy_world).2) ∧
  same_elsewhere "c1" (store_of Cases.busy_world)
    (store_of (update_tracker (Sample.post_batch [Sample.set_x]) "c1"
                 Cases.busy_world).2) ∧
  same_elsewhere "c1" (store_of Cases.busy_world)
    (store_of (retrieve_tracker (Sample.post JNull) "c1" Cases.busy_world).2) ∧
  (append_events (Sample.post_batch [Sample.greet; Sample.bogus]) "c1"
     Cases.busy_world).1 = Raise UnknownEventKind ∧
  same_elsewhere "c1" (store_of Cases.busy_world)
    (store_of (append_events (Sample.post_batch [Sample.greet; Sample.bogus])
                 "c1" Cases.busy_world).2) ∧
  (update_tracker Cases.malformed "c1" Cases.busy_world).1 = Raise ValueError ∧
  same_elsewhere "c1" (store_of Cases.busy_world)
    (store_of (update_tracker Cases.malformed "c1" Cases.busy_world).2).
Proof.
  destruct (tracker_endpoints_keep_other_ids
              (Sample.post_batch [Sample.set_x]) "c1" Cases.busy_world
              busy_store_ok) as (Ha & Hu & _).
  destruct (tracker_endpoints_keep_other_ids
              (Sample.post JNull) "c1" Cases.busy_world
              busy_store_ok) as (_ & _ & Hr).
  destruct (tracker_endpoints_keep_other_ids
              (Sample.post_batch [Sample.greet; Sample.bogus]) "c1"
              Cases.busy_world busy_store_ok) as (Ha' & _ & _).
  destruct (tracker_endpoints_keep_other_ids
              Cases.malformed "c1" Cases.busy_world
              busy_store_ok) as (_ & Hu' & _).
  split; [vm_compute; reflexivity|].
  split; [vm_compute; reflexivity|].
  split; [vm_compute; reflexivity|].
  split; [exact Ha|]. split; [exact Hu|]. split; [exact Hr|].
  split; [vm_compute; reflexivity|]. split; [exact Ha'|].
  split; [vm_compute; reflexivity|]. exact Hu'.
Defined.
